(** * The bundle method optimizer of opengm

    A shallow embedding of [include/opengm/learning/bundle-optimizer.hxx]:
    the class template [BundleOptimizer<ValueType>] with its methods
    [optimize], [setupQp], [findMinLowerBound] and [dot].

    The class is a template over the value type, so the embedding is generic
    over a type [T] with the arithmetic and the comparisons the code applies
    to it; two instances are given, IEEE binary64 ([double], as the kernel's
    primitive floats) and an exact one (rationals extended with infinities).
    The oracle and the QP solver backend are collaborators outside the
    class: they are variables of the development, and every call made to
    them is recorded in the state the methods thread. *)

From Stdlib Require Import ZArith NArith QArith Qreduction Floats Lia Lqa.
From stdpp Require Import base option list gmap strings pretty.

Set Default Proof Using "Type".

(** ** The value type *)

(** What the code asks of [ValueType] (and of [double], which the source
    mixes freely with it: [lambda] is a [double], the literals are
    [double]s): the literals [0.0], [0.5] and [1.0], [+], [-], [*], [<]
    (through [std::min]), [<=] and [std::numeric_limits<T>::infinity()]. *)
Class ValueType (T : Type) := {
  vzero : T;
  vhalf : T;
  vone : T;
  vadd : T -> T -> T;
  vsub : T -> T -> T;
  vmul : T -> T -> T;
  vltb : T -> T -> bool;
  vleb : T -> T -> bool;
  vinfinity : T
}.

(** [std::min(a, b)] is [(b < a) ? b : a]. *)
Definition std_min {T} `{ValueType T} (a b : T) : T :=
  if vltb b a then b else a.

(** The order facts the monotonicity argument uses. They are weak enough to
    hold of IEEE comparisons, where [x <= x] fails for a NaN. *)
Class ValueOrder (T : Type) `{ValueType T} : Prop := {
  vltb_vleb : forall a b : T, vltb a b = true -> vleb a b = true;
  vltb_vleb_refl : forall a b : T, vltb a b = true -> vleb a a = true;
  vleb_infinity_refl : vleb (vinfinity : T) vinfinity = true
}.

(** *** [double] *)

#[global] Instance double : ValueType float := {|
  vzero := 0%float;
  vhalf := 0.5%float;
  vone := 1%float;
  vadd := PrimFloat.add;
  vsub := PrimFloat.sub;
  vmul := PrimFloat.mul;
  vltb := PrimFloat.ltb;
  vleb := PrimFloat.leb;
  vinfinity := PrimFloat.infinity
|}.

(** *** Exact arithmetic

    Rationals kept in lowest terms, with the two infinities and a NaN that
    follow the IEEE rules; no rounding. *)
Inductive xreal : Type :=
  | Fin (q : Q)
  | PInf
  | NInf
  | NaN.

Definition xopp (x : xreal) : xreal :=
  match x with
  | Fin q => Fin (Qred (- q))
  | PInf => NInf
  | NInf => PInf
  | NaN => NaN
  end.

Definition xadd (x y : xreal) : xreal :=
  match x, y with
  | NaN, _ | _, NaN => NaN
  | Fin a, Fin b => Fin (Qred (a + b))
  | PInf, NInf | NInf, PInf => NaN
  | PInf, _ | _, PInf => PInf
  | NInf, _ | _, NInf => NInf
  end.

Definition xsub (x y : xreal) : xreal := xadd x (xopp y).

(** The sign of a value that is not a NaN. *)
Definition xsign (x : xreal) : comparison :=
  match x with
  | Fin q => (0 ?= q)%Q
  | PInf => Lt
  | NInf => Gt
  | NaN => Eq
  end.

Definition xmul (x y : xreal) : xreal :=
  match x, y with
  | NaN, _ | _, NaN => NaN
  | Fin a, Fin b => Fin (Qred (a * b))
  | _, _ =>
      match xsign x, xsign y with
      | Eq, _ | _, Eq => NaN
      | Lt, Lt | Gt, Gt => PInf
      | Lt, Gt | Gt, Lt => NInf
      end
  end.

Definition xleb (x y : xreal) : bool :=
  match x, y with
  | NaN, _ | _, NaN => false
  | NInf, _ | _, PInf => true
  | Fin a, Fin b => Qle_bool a b
  | _, _ => false
  end.

Definition xltb (x y : xreal) : bool :=
  match x, y with
  | NaN, _ | _, NaN => false
  | Fin a, Fin b => negb (Qle_bool b a)
  | PInf, _ | _, NInf => false
  | _, _ => true
  end.

#[global] Instance exact : ValueType xreal := {|
  vzero := Fin 0;
  vhalf := Fin (1 # 2);
  vone := Fin 1;
  vadd := xadd;
  vsub := xsub;
  vmul := xmul;
  vltb := xltb;
  vleb := xleb;
  vinfinity := PInf
|}.

(** ** Exceptions *)

(** What a method can end with instead of returning. *)
Inductive Exception : Type :=
  | DimensionMismatch
  | NullSolver.

Inductive Result (A : Type) : Type :=
  | Ok (a : A)
  | Throw (e : Exception).
Arguments Ok {A} a.
Arguments Throw {A} e.

(** Modelled from the spec: the macro [OPENGM_ASSERT] is not defined in this
    header. The spec has a violated arity precondition of the inner product
    rejected at once, as a [DimensionMismatch] failure. *)
Definition OPENGM_ASSERT (expression : bool) : Result unit :=
  if expression then Ok tt else Throw DimensionMismatch.

(** ** Weights *)

Section Weights.
Context {T : Type} `{ValueType T}.

(** Modelled from the spec: the weight vector type is a template
    parameter. The spec asks of it a fixed length, reported by
    [numberOfParameters()] (the source also calls it [numberOfWeights()]),
    reading and writing by position, and construction with a given length,
    zero-initialised. *)
Definition Weights : Type := list T.

Definition numberOfParameters (w : Weights) : nat := length w.
Definition numberOfWeights (w : Weights) : nat := length w.

(** [Weights a(n)] *)
Definition Weights_new (n : nat) : Weights := replicate n vzero.

(** [w[i]] read, for [i] below the length. *)
Definition Weights_get (w : Weights) (i : nat) : T := nth i w vzero.

(** [w[i] = v], for [i] below the length. *)
Definition Weights_set (i : nat) (v : T) (w : Weights) : Weights := <[i := v]> w.

(** [for (i = 0; i < n; i++) body], on the variables [X] the body updates;
    [n] is a length, taken to fit the type of the index. *)
Definition for_loop {X : Type} (n : nat) (body : nat -> X -> X) (x : X) : X :=
  fold_left (fun acc i => body i acc) (seq 0 n) x.

(** [BundleOptimizer::dot] *)
Definition dot (a b : Weights) : Result T :=
  match OPENGM_ASSERT (numberOfParameters a =? numberOfParameters b) with
  | Throw e => Throw e
  | Ok _ =>
      Ok (for_loop (numberOfParameters a)
            (fun i d => vadd d (vadd (Weights_get a i) (Weights_get b i))) vzero)
  end.

(** The standard inner product, the sum of the products of the components. *)
Definition inner_product (a b : Weights) : T :=
  fold_left (fun d p => vadd d (vmul p.1 p.2)) (zip a b) vzero.
End Weights.


(** ** The collaborators of the optimizer *)

Inductive OptimizerResult : Type :=
  | ReachedMinGap
  | ReachedSteps
  | Error.

Inductive Sense : Type :=
  | Minimize
  | Maximize.

Inductive VariableType : Type :=
  | Continuous
  | Integer
  | Binary.

Definition endl : string := String (Ascii.ascii_of_nat 10) EmptyString.

Section Collaborators.
Context {T : Type} `{ValueType T}.

(** [BundleOptimizer::Parameter]; [steps] is an [unsigned int]. *)
Record BundleOptimizer_Parameter : Type := {
  lambda : T;
  min_gap : T;
  steps : N
}.

(** Modelled from the spec: [solver::BundleCollector] is declared in a header
    that is not part of the sources. The spec has it own an append-only
    ordered sequence of hyperplanes, a slope vector and an intercept each,
    and derive from it one inequality [<w,a> + b <= xi] per stored
    hyperplane, in order, rebuilt from the whole history at every request. *)
Definition Hyperplane : Type := (@Weights T * T)%type.

(** Modelled from the spec: the store of [solver::BundleCollector], the
    hyperplanes in the order they were added. *)
Definition BundleCollector : Type := list Hyperplane.

(** Modelled from the spec: [BundleCollector::addHyperplane(a, b)] appends
    the hyperplane to the store; none is removed or changed. *)
Definition addHyperplane (a : @Weights T) (b : T) (c : BundleCollector) : BundleCollector :=
  c ++ [(a, b)].

(** Modelled from the spec: the constraint set, one inequality per stored
    hyperplane; a constraint [(a, b)] reads [<w,a> + b <= xi]. *)
Definition LinearConstraints : Type := list Hyperplane.

(** Modelled from the spec: [BundleCollector::getConstraints()], the
    inequalities of all the stored hyperplanes, in order. *)
Definition getConstraints (c : BundleCollector) : LinearConstraints := c.

(** Modelled from the spec: [solver::QuadraticObjective] is declared in a
    header that is not part of the sources. The spec has it hold quadratic
    coefficients on pairs of variables, linear coefficients on variables and
    a sense; a coefficient never set is absent from the map. *)
Record QuadraticObjective : Type := {
  obj_size : nat;
  obj_quadratic : gmap (nat * nat) T;
  obj_linear : gmap nat T;
  obj_sense : Sense
}.

(** Modelled from the spec: [QuadraticObjective obj(size)], an objective
    over [size] variables with no coefficient set. *)
Definition QuadraticObjective_new (size : nat) : QuadraticObjective :=
  {| obj_size := size; obj_quadratic := ∅; obj_linear := ∅; obj_sense := Minimize |}.

(** Modelled from the spec: [obj.setQuadraticCoefficient(i, j, v)]. *)
Definition setQuadraticCoefficient (i j : nat) (v : T) (o : QuadraticObjective) : QuadraticObjective :=
  {| obj_size := obj_size o;
     obj_quadratic := <[(i, j) := v]> (obj_quadratic o);
     obj_linear := obj_linear o;
     obj_sense := obj_sense o |}.

(** Modelled from the spec: [obj.setCoefficient(i, v)], the linear
    coefficient of variable [i]. *)
Definition setCoefficient (i : nat) (v : T) (o : QuadraticObjective) : QuadraticObjective :=
  {| obj_size := obj_size o;
     obj_quadratic := obj_quadratic o;
     obj_linear := <[i := v]> (obj_linear o);
     obj_sense := obj_sense o |}.

(** Modelled from the spec: [obj.setSense(s)]. *)
Definition setSense (s : Sense) (o : QuadraticObjective) : QuadraticObjective :=
  {| obj_size := obj_size o;
     obj_quadratic := obj_quadratic o;
     obj_linear := obj_linear o;
     obj_sense := s |}.

(** Modelled from the spec: [solver::Solution] is declared in a header that
    is not part of the sources; the spec has it assign a value to every
    variable, read by position. *)
Definition Solution : Type := nat -> T.

(** Modelled from the spec: [solver::QuadraticSolverBackend] is an abstract
    capability outside the sources. A backend is represented by the calls it
    has received, oldest first; what it answers to [solve] is a variable of
    the development, a function of those calls. *)
Inductive SolverCall : Type :=
  | Initialize (numVariables : nat) (variableType : VariableType)
  | SetObjective (objective : QuadraticObjective)
  | SetConstraints (constraints : LinearConstraints)
  | Solve.

(** Modelled from the spec: a [solver::QuadraticSolverBackend], as the calls
    it has received, oldest first. *)
Definition QuadraticSolverBackend : Type := list SolverCall.

(** Modelled from the spec: [solver::QuadraticSolverFactory::Create()], a
    backend that has received no call. *)
Definition QuadraticSolverFactory_Create : QuadraticSolverBackend := [].

(** ** The state the methods work on *)

(** The members of the [BundleOptimizer] object ([_solver] is a pointer,
    null until [setupQp] creates the backend), the points the oracle has been
    called at, oldest first, and what has been written to [std::cout] and
    [std::cerr]. *)
Record State : Type := {
  _parameter : BundleOptimizer_Parameter;
  _bundleCollector : BundleCollector;
  _solver : option QuadraticSolverBackend;
  oracle_calls : list (@Weights T);
  cout : string;
  cerr : string
}.

(** [BundleOptimizer(parameter)]: an empty collector and a null solver. *)
Definition BundleOptimizer_new (parameter : BundleOptimizer_Parameter) : State :=
  {| _parameter := parameter; _bundleCollector := []; _solver := None;
     oracle_calls := []; cout := ""; cerr := "" |}.

(** Assignments to one member, the others kept. *)
Definition with_bundleCollector (c : BundleCollector) (s : State) : State :=
  {| _parameter := _parameter s; _bundleCollector := c; _solver := _solver s;
     oracle_calls := oracle_calls s; cout := cout s; cerr := cerr s |}.

Definition with_solver (b : option QuadraticSolverBackend) (s : State) : State :=
  {| _parameter := _parameter s; _bundleCollector := _bundleCollector s; _solver := b;
     oracle_calls := oracle_calls s; cout := cout s; cerr := cerr s |}.

Definition with_oracle_calls (l : list (@Weights T)) (s : State) : State :=
  {| _parameter := _parameter s; _bundleCollector := _bundleCollector s; _solver := _solver s;
     oracle_calls := l; cout := cout s; cerr := cerr s |}.

Definition with_cout (o : string) (s : State) : State :=
  {| _parameter := _parameter s; _bundleCollector := _bundleCollector s; _solver := _solver s;
     oracle_calls := oracle_calls s; cout := o; cerr := cerr s |}.

Definition with_cerr (o : string) (s : State) : State :=
  {| _parameter := _parameter s; _bundleCollector := _bundleCollector s; _solver := _solver s;
     oracle_calls := oracle_calls s; cout := cout s; cerr := o |}.

(** A method body: from a state to what it returns or throws, and the state
    it leaves. *)
Definition M (A : Type) : Type := State -> Result A * State.

#[global] Instance M_ret : MRet M := fun A a s => (Ok a, s).

#[global] Instance M_bind : MBind M := fun A B f m s =>
  match m s with
  | (Ok a, s') => f a s'
  | (Throw e, s') => (Throw e, s')
  end.

Definition gets {A : Type} (f : State -> A) : M A := fun s => (Ok (f s), s).

Definition modify (f : State -> State) : M unit := fun s => (Ok tt, f s).

(** A call of a function that may throw. *)
Definition lift {A : Type} (r : Result A) : M A := fun s => (r, s).

(** [_solver->call(...)]; dereferencing a null [_solver] is an error of its
    own. *)
Definition solver_call (c : SolverCall) : M unit := fun s =>
  match _solver s with
  | None => (Throw NullSolver, s)
  | Some b => (Ok tt, with_solver (Some (b ++ [c])) s)
  end.
End Collaborators.

(** ** The methods *)

(** The variables of one pass of the loop that outlive it: [minValue], the
    counter [t] (an [unsigned int]) and the weights [w], which [optimize]
    holds by reference. *)
Record LoopVars {T : Type} : Type := {
  minValue : T;
  t : N;
  w : @Weights T
}.
Arguments LoopVars T : clear implicits.

Section Methods.
Context {T : Type} `{ValueType T}.

(** The oracle, a template parameter of [optimize]: called as
    [oracle(current, value, gradient)], it overwrites [value] and [gradient].
    It may keep state of its own, so its answer may depend on the points it
    was called at before (the first argument, oldest first). *)
Variable oracle : list (@Weights T) -> @Weights T -> T -> @Weights T -> T * @Weights T.

(** What the backend answers to [solve(x, value, msg)], given the calls it
    has received before: the solution, the value of the objective, the
    message, and whether the solution is optimal. *)
Variable solver : @QuadraticSolverBackend T -> @Solution T * T * string * bool.

(** [oracle(current, value, gradient)]; the call is recorded. *)
Definition call_oracle (current : @Weights T) (value : T) (gradient : @Weights T)
  : M (T * @Weights T) := fun s =>
  (Ok (oracle (oracle_calls s) current value gradient),
   with_oracle_calls (oracle_calls s ++ [current]) s).

(** [_solver->solve(x, value, msg)] *)
Definition solve : M (@Solution T * T * string * bool) := fun s =>
  match _solver s with
  | None => (Throw NullSolver, s)
  | Some b => (Ok (solver b), with_solver (Some (b ++ [Solve])) s)
  end.

(** [BundleOptimizer::setupQp] *)
Definition setupQp (w : @Weights T) : M unit :=
  b ← gets _solver;
  (if b is None
   then modify (with_solver (Some QuadraticSolverFactory_Create))
   else mret tt);;
  solver_call (Initialize (numberOfParameters w + 1) Continuous);;
  p ← gets _parameter;
  let obj := QuadraticObjective_new (numberOfWeights w + 1) in
  let obj := for_loop (numberOfWeights w)
               (fun i obj => setQuadraticCoefficient i i (vmul vhalf (lambda p)) obj) obj in
  let obj := setCoefficient (numberOfWeights w) vone obj in
  let obj := setSense Minimize obj in
  solver_call (SetObjective obj).

(** The warning [findMinLowerBound] writes to [std::cerr]. *)
Definition not_optimal_warning (msg : string) : string :=
  "[BundleOptimizer] QP could not be solved to optimality: " +:+ msg +:+ endl.

(** [BundleOptimizer::findMinLowerBound]; the reference parameters [w] and
    [value] are returned. *)
Definition findMinLowerBound (w : @Weights T) : M (@Weights T * T) :=
  c ← gets _bundleCollector;
  solver_call (SetConstraints (getConstraints c));;
  '(x, value, msg, optimal) ← solve;
  (if (optimal : bool)
   then mret tt
   else modify (fun s => with_cerr (cerr s +:+ not_optimal_warning msg) s));;
  mret (for_loop (numberOfParameters w) (fun i w => Weights_set i ((x : Solution) i) w) w, value).

(** The line a pass of the loop writes to [std::cout]. *)
Definition iteration_banner (t : N) : string :=
  endl +:+ "----------------- iteration " +:+ pretty t +:+ endl.

(** One pass of the body of [while (true)] in [optimize], up to the test
    that ends it: the gap [eps_t] it computes and the variables it leaves. *)
Definition iteration (v : LoopVars T) : M (T * LoopVars T) :=
  let t := ((t v + 1) mod 2 ^ 32)%N in
  modify (fun s => with_cout (cout s +:+ iteration_banner t) s);;
  let w_tm1 := w v in
  '(L_w_tm1, a_t) ← call_oracle w_tm1 vzero (Weights_new (numberOfWeights (w v)));
  p ← gets _parameter;
  d ← lift (dot w_tm1 w_tm1);
  let minValue := std_min (minValue v) (vadd L_w_tm1 (vmul (vmul (lambda p) vhalf) d)) in
  d' ← lift (dot w_tm1 a_t);
  let b_t := vsub L_w_tm1 d' in
  modify (fun s => with_bundleCollector (addHyperplane a_t b_t (_bundleCollector s)) s);;
  '(w, minLower) ← findMinLowerBound (w v);
  let eps_t := vsub minValue minLower in
  mret (eps_t, {| minValue := minValue; t := t; w := w |}).

(** [if (eps_t <= _parameter.min_gap) break;] *)
Definition converged (eps_t : T) (s : State) : bool :=
  vleb eps_t (min_gap (_parameter s)).

(** The loop of [optimize], for at most [fuel] passes: [None] when the loop
    has not ended by then. *)
Fixpoint optimize_loop (fuel : nat) (v : LoopVars T) (s : State)
  : option (Result (LoopVars T) * State) :=
  match fuel with
  | O => None
  | S fuel' =>
      match iteration v s with
      | (Throw e, s') => Some (Throw e, s')
      | (Ok (eps_t, v'), s') =>
          if converged eps_t s' then Some (Ok v', s') else optimize_loop fuel' v' s'
      end
  end.

(** The variables of the loop when it is entered. *)
Definition loop_entry (w : @Weights T) : LoopVars T :=
  {| minValue := vinfinity; t := 0; w := w |}.

(** [BundleOptimizer::optimize]; the reference parameter [w] is returned
    with the result. *)
Definition optimize (fuel : nat) (w : @Weights T) (s : State)
  : option (Result (OptimizerResult * @Weights T) * State) :=
  match setupQp w s with
  | (Throw e, s') => Some (Throw e, s')
  | (Ok _, s') =>
      match optimize_loop fuel (loop_entry w) s' with
      | None => None
      | Some (Throw e, s'') => Some (Throw e, s'')
      | Some (Ok {| w := w |}, s'') => Some (Ok (ReachedMinGap, w), s'')
      end
  end.

(** The first [k] passes of the loop, when each of them is completed and
    followed by another: the variables and the state before pass [k + 1]. *)
Fixpoint passes (k : nat) (v : LoopVars T) (s : State) : option (LoopVars T * State) :=
  match k with
  | O => Some (v, s)
  | S k' =>
      match iteration v s with
      | (Throw _, _) => None
      | (Ok (eps_t, v'), s') =>
          if converged eps_t s' then None else passes k' v' s'
      end
  end.
End Methods.

(** ** What the statements below speak of *)

Section Observations.
Context {T : Type} `{ValueType T}.

(** The calls the backend behind [_solver] has received: none when the
    pointer is null. *)
Definition solver_calls (s : @State T) : @QuadraticSolverBackend T :=
  default [] (_solver s).

Definition is_Solve (c : @SolverCall T) : bool :=
  match c with Solve => true | _ => false end.

(** The calls of a pass of the loop: [setConstraints] and [solve]. *)
Definition is_pass_call (c : @SolverCall T) : bool :=
  match c with SetConstraints _ | Solve => true | _ => false end.

(** How many times a backend has been asked to [solve]. *)
Definition count_Solve (b : @QuadraticSolverBackend T) : nat :=
  length (List.filter is_Solve b).

(** The objective and the constraints a backend works on: those of the last
    [setObjective] and of the last [setConstraints] it has received. *)
Definition installed_objective (b : @QuadraticSolverBackend T) : option QuadraticObjective :=
  last (omap (fun c => match c with SetObjective o => Some o | _ => None end) b).

Definition installed_constraints (b : @QuadraticSolverBackend T) : option LinearConstraints :=
  last (omap (fun c => match c with SetConstraints l => Some l | _ => None end) b).

(** The same state with another step cap. *)
Definition with_steps (n : N) (s : @State T) : State :=
  {| _parameter := {| lambda := lambda (_parameter s);
                      min_gap := min_gap (_parameter s);
                      steps := n |};
     _bundleCollector := _bundleCollector s; _solver := _solver s;
     oracle_calls := oracle_calls s; cout := cout s; cerr := cerr s |}.

(** The objective [setupQp] builds for [n] weights and the regularizer
    weight [lam]. *)
Definition setup_objective (lam : T) (n : nat) : @QuadraticObjective T :=
  setSense Minimize
    (setCoefficient n vone
       (for_loop n (fun i obj => setQuadraticCoefficient i i (vmul vhalf lam) obj)
          (QuadraticObjective_new (n + 1)))).

(** The calls [setupQp] makes to the backend for [n] weights. *)
Definition setup_calls (lam : T) (n : nat) : @QuadraticSolverBackend T :=
  [Initialize (n + 1) Continuous; SetObjective (setup_objective lam n)].

(** What [findMinLowerBound] leaves in a weight vector of length [n] when
    the solution is [x]. *)
Definition solution_weights (n : nat) (x : @Solution T) : @Weights T :=
  map x (seq 0 n).

(** Modelled from the spec: the subproblem the backend is asked to solve,
    [min 0.5 lambda |w|^2 + xi] subject to [<w,a_i> + b_i <= xi] for every
    stored hyperplane. Of a point [x] over [n + 1] variables, components
    [0 .. n-1] are [w] and component [n] is [xi]. *)
Definition qp_value (o : @QuadraticObjective T) (x : @Solution T) : T :=
  vadd
    (map_fold (fun ij q acc => vadd acc (vmul q (vmul (x ij.1) (x ij.2)))) vzero
       (obj_quadratic o))
    (map_fold (fun i c acc => vadd acc (vmul c (x i))) vzero (obj_linear o)).

(** Modelled from the spec: the point [x] satisfies every constraint, with
    [<w,a>] the inner product. *)
Definition qp_feasible (n : nat) (c : @LinearConstraints T) (x : @Solution T) : Prop :=
  Forall (fun h => vleb (vadd (inner_product (solution_weights n x) h.1) h.2) (x n) = true) c.
End Observations.

(** *** Exact solutions, in exact arithmetic *)

Definition is_real (x : xreal) : Prop :=
  match x with Fin _ => True | _ => False end.

(** Equality of values: of rationals, as fractions. *)
Definition xeq (x y : xreal) : Prop :=
  match x, y with
  | Fin a, Fin b => (a == b)%Q
  | PInf, PInf | NInf, NInf | NaN, NaN => True
  | _, _ => False
  end.

(** A point all of whose [m] components are rationals. *)
Definition real_point (m : nat) (x : @Solution xreal) : Prop :=
  forall i, i < m -> is_real (x i).

(** The answer [(x, value, msg, optimal)] to [solve] is an exact solution of
    the subproblem of objective [o] and constraints [c]: [x] is a feasible
    real point, [value] is the objective at [x], no feasible real point has
    a smaller objective, and the answer is reported optimal. *)
Definition solved_exactly (o : @QuadraticObjective xreal) (c : @LinearConstraints xreal)
    (answer : @Solution xreal * xreal * string * bool) : Prop :=
  let n := (obj_size o - 1)%nat in
  real_point (obj_size o) answer.1.1.1 /\
  qp_feasible n c answer.1.1.1 /\
  xeq answer.1.1.2 (qp_value o answer.1.1.1) /\
  (forall y, real_point (obj_size o) y -> qp_feasible n c y ->
             xleb (qp_value o answer.1.1.1) (qp_value o y) = true) /\
  answer.2 = true.

(** A backend that solves exactly the subproblem it works on whenever that
    one has the objective [o] and the constraints [c]. *)
Definition solves_exactly (solver : @QuadraticSolverBackend xreal -> @Solution xreal * xreal * string * bool)
    (o : @QuadraticObjective xreal) (c : @LinearConstraints xreal) : Prop :=
  forall b, installed_objective b = Some o -> installed_constraints b = Some c ->
            solved_exactly o c (solver b).

(** *** The scenarios *)

(** The constant oracle [L(w) = 5] with gradient [0]. *)
Definition constant_oracle
  : list (@Weights xreal) -> @Weights xreal -> xreal -> @Weights xreal -> xreal * @Weights xreal :=
  fun _ current _ _ => (Fin 5, Weights_new (numberOfWeights current)).

(** [lambda = 1.0], [min_gap = 1e-5], [steps = 0]: the default parameter. *)
Definition scenario_parameter : @BundleOptimizer_Parameter xreal :=
  {| lambda := Fin 1; min_gap := Fin (1 # 100000); steps := 0 |}.

(** The objective [setupQp] installs for one weight and [lambda = 1.0]. *)
Definition scenario_objective : @QuadraticObjective xreal :=
  setSense Minimize
    (setCoefficient 1 (Fin 1)
       (setQuadraticCoefficient 0 0 (Fin (1 # 2)) (QuadraticObjective_new 2))).

(** A backend that answers every [solve] with [w = 0], [xi = 5], value [5]. *)
Definition scenario_solver
  : @QuadraticSolverBackend xreal -> @Solution xreal * xreal * string * bool :=
  fun _ => (fun i => nth i [Fin 0; Fin 5] (Fin 0), Fin 5, "", true).

(** The default parameter with a cap of three steps. *)
Definition capped_parameter : @BundleOptimizer_Parameter xreal :=
  {| lambda := Fin 1; min_gap := Fin (1 # 100000); steps := 3 |}.

(** A backend that answers every [solve] with the zero vector and the
    value [0]. *)
Definition stuck_solver
  : @QuadraticSolverBackend xreal -> @Solution xreal * xreal * string * bool :=
  fun _ => (fun _ => Fin 0, Fin 0, "", true).

(** The state of the scenario when the loop is entered, and after one pass
    with the backend above. *)
Definition scenario_entry : @State xreal :=
  (setupQp [Fin 0] (BundleOptimizer_new scenario_parameter)).2.

Definition scenario_final : @State xreal :=
  (iteration constant_oracle scenario_solver (loop_entry [Fin 0]) scenario_entry).2.

(** An oracle on [double]s with value [10] and gradient [(3)] everywhere. *)
Definition slope_oracle
  : list (@Weights float) -> @Weights float -> float -> @Weights float -> float * @Weights float :=
  fun _ _ _ _ => (10%float, [3%float]).

(** A backend on [double]s that answers every [solve] with the zero vector,
    the value [0] and the message [msg], and reports it [optimal]. *)
Definition zero_solver (msg : string) (optimal : bool)
  : @QuadraticSolverBackend float -> @Solution float * float * string * bool :=
  fun _ => (fun _ => 0%float, 0%float, msg, optimal).

(** The default parameter on [double]s; the literal is the [double] nearest
    to [1e-5]. *)
Definition double_parameter : @BundleOptimizer_Parameter float :=
  {| lambda := 1%float; min_gap := 0x1.4f8b588e368f1p-17%float; steps := 0 |}.

(** The state of a fresh optimizer on [double]s once [setupQp] has run for
    the weights [w0]. *)
Definition double_ready (w0 : @Weights float) : @State float :=
  (setupQp w0 (BundleOptimizer_new double_parameter)).2.

(** *** The rest of the class, and further scenarios *)


(** What [k] passes of the loop append to the text [out] of [std::cout]
    when the counter [t] stands at [t0] before the first of them. *)
Definition banners (t0 : N) (k : nat) (out : string) : string :=
  fold_left (fun acc i => acc +:+ iteration_banner ((t0 + N.of_nat i) mod 2 ^ 32)%N)
    (seq 1 k) out.

(** The warnings that the answers of a backend, each a message and whether
    the answer is optimal, append to the text [out] of [std::cerr]. *)
Definition warnings (answers : list (string * bool)) (out : string) : string :=
  fold_left (fun acc a => if (a.2 : bool) then acc else acc +:+ not_optimal_warning a.1)
    answers out.


(** A backend on [double]s that reports a NaN as the value of its answer. *)
Definition nan_solver
  : @QuadraticSolverBackend float -> @Solution float * float * string * bool :=
  fun _ => (fun _ => 0%float, nan, "", true).

(** A backend that reports the value [100], above what the constant oracle
    lets observe. *)
Definition overshooting_solver
  : @QuadraticSolverBackend xreal -> @Solution xreal * xreal * string * bool :=
  fun _ => (fun _ => Fin 0, Fin 100, "", true).

(** An oracle on [double]s whose value is a NaN everywhere. *)
Definition nan_oracle
  : list (@Weights float) -> @Weights float -> float -> @Weights float -> float * @Weights float :=
  fun _ _ _ _ => (nan, [3%float]).

(** A backend that gives the exact answer of the scenario and reports it
    not optimal. *)
Definition unsure_solver
  : @QuadraticSolverBackend xreal -> @Solution xreal * xreal * string * bool :=
  fun _ => (fun i => nth i [Fin 0; Fin 5] (Fin 0), Fin 5, "suboptimal", false).

(** The answers, each a message and whether it is optimal, that a backend
    which has received the calls [b] gives to the [solve]s among the further
    calls [cs]. *)
Fixpoint solve_answers {T : Type}
    (solver : @QuadraticSolverBackend T -> @Solution T * T * string * bool)
    (b cs : @QuadraticSolverBackend T) : list (string * bool) :=
  match cs with
  | [] => []
  | c :: cs' =>
      (if is_Solve c then [((solver b).1.2, (solver b).2)] else [])
      ++ solve_answers solver (b ++ [c]) cs'
  end.

(** Unfolds the operations of [M]. *)
Ltac unfold_M :=
  unfold mbind, M_bind, mret, M_ret, gets, modify, lift, solver_call, solve,
    call_oracle in *.

(** * Properties *)

(** ** The value types *)

Lemma SFcompare_refl (x : spec_float) :
  SFcompare x x = Some Eq \/ SFcompare x x = None.
Proof.
  destruct x as [[]|[]| |[] m e]; simpl; auto;
    rewrite Z.compare_refl, Pos.compare_cont_refl; auto.
Qed.

Lemma double_order : ValueOrder float.
Proof.
  split; simpl.
  - intros a b. rewrite ltb_spec, leb_spec. unfold SFltb, SFleb.
    destruct (SFcompare _ _) as [[]|]; congruence.
  - intros a b. rewrite ltb_spec, leb_spec. unfold SFltb, SFleb.
    destruct (Prim2SF a) as [[]|[]| |[] m e], (Prim2SF b) as [[]|[]| |[] m' e'];
      simpl; try congruence;
      rewrite Z.compare_refl, Pos.compare_cont_refl; auto.
  - vm_compute. reflexivity.
Qed.

Lemma exact_order : ValueOrder xreal.
Proof.
  split; simpl.
  - intros [a| | |] [b| | |]; simpl; try congruence.
    rewrite negb_true_iff. intros Hab.
    apply Qle_bool_iff. destruct (Qlt_le_dec a b) as [Hlt|Hle].
    + now apply Qlt_le_weak.
    + apply Qle_bool_iff in Hle. congruence.
  - intros [a| | |] [b| | |]; simpl; try congruence;
      intros _; apply Qle_bool_iff, Qle_refl.
  - reflexivity.
Qed.

(** ** Loops over the components *)

Lemma for_loop_S {X : Type} (n : nat) (body : nat -> X -> X) (x : X) :
  for_loop (S n) body x = body n (for_loop n body x).
Proof.
  unfold for_loop. rewrite seq_S, fold_left_app. reflexivity.
Qed.

Lemma for_loop_ext {X : Type} (n : nat) (f g : nat -> X -> X) (x : X) :
  (forall i y, i < n -> f i y = g i y) -> for_loop n f x = for_loop n g x.
Proof.
  induction n as [|n IH]; intros Hfg; [reflexivity|].
  rewrite !for_loop_S, IH by (intros; apply Hfg; lia).
  apply Hfg. lia.
Qed.

Section WeightsFacts.
Context {T : Type} `{ValueType T}.

Lemma Weights_get_lookup (w : @Weights T) (i : nat) (x : T) :
  w !! i = Some x -> Weights_get w i = x.
Proof.
  unfold Weights_get. intros Hi. now apply nth_lookup_Some with (d := vzero) in Hi.
Qed.

(** The sum the loop of [dot] has accumulated after [k] rounds. *)
Lemma dot_loop_take (a b : @Weights T) (k : nat) :
  k <= length a -> k <= length b ->
  for_loop k (fun i d => vadd d (vadd (Weights_get a i) (Weights_get b i))) vzero
  = fold_left (fun d p => vadd d (vadd p.1 p.2)) (zip (take k a) (take k b)) vzero.
Proof.
  induction k as [|k IH]; intros Ha Hb.
  - reflexivity.
  - rewrite for_loop_S, IH by lia.
    destruct (lookup_lt_is_Some_2 a k) as [x Hx]; [lia|].
    destruct (lookup_lt_is_Some_2 b k) as [y Hy]; [lia|].
    rewrite (take_S_r a k x Hx), (take_S_r b k y Hy).
    rewrite zip_with_app by (rewrite !length_take; lia).
    rewrite fold_left_app. simpl.
    now rewrite (Weights_get_lookup a k x Hx), (Weights_get_lookup b k y Hy).
Qed.

Lemma dot_equal_arity (a b : @Weights T) :
  numberOfParameters a = numberOfParameters b ->
  dot a b = Ok (fold_left (fun d p => vadd d (vadd p.1 p.2)) (zip a b) vzero).
Proof.
  unfold dot, numberOfParameters. intros Hab.
  rewrite Hab, Nat.eqb_refl. simpl. f_equal.
  rewrite <- Hab, dot_loop_take by lia.
  now rewrite firstn_all, Hab, firstn_all.
Qed.

Lemma dot_unequal_arity (a b : @Weights T) :
  numberOfParameters a <> numberOfParameters b ->
  dot a b = Throw DimensionMismatch.
Proof.
  unfold dot. intros Hab. apply Nat.eqb_neq in Hab. now rewrite Hab.
Qed.

(** The loop of [findMinLowerBound] has overwritten the first [k]
    components after [k] rounds, and no other. *)
Lemma copy_loop_take (x : @Solution T) (w : @Weights T) (k : nat) :
  k <= length w ->
  for_loop k (fun i w => Weights_set i (x i) w) w = solution_weights k x ++ drop k w.
Proof.
  unfold solution_weights, Weights_set.
  induction k as [|k IH]; intros Hk.
  - now rewrite drop_0.
  - rewrite for_loop_S, IH by lia.
    rewrite seq_S, map_app. simpl.
    destruct (lookup_lt_is_Some_2 w k) as [y Hy]; [lia|].
    rewrite (drop_S w y k Hy).
    rewrite <- app_assoc. simpl.
    replace k with (length (map x (seq 0 k)) + 0) at 1
      by (rewrite length_map, length_seq; lia).
    now rewrite insert_app_r.
Qed.

Lemma copy_loop_all (x : @Solution T) (w : @Weights T) :
  for_loop (numberOfParameters w) (fun i w => Weights_set i (x i) w) w
  = solution_weights (length w) x.
Proof.
  unfold numberOfParameters. rewrite copy_loop_take by lia.
  now rewrite drop_all, app_nil_r.
Qed.

Lemma solution_weights_length (n : nat) (x : @Solution T) :
  length (solution_weights n x) = n.
Proof. unfold solution_weights. now rewrite length_map, length_seq. Qed.

Lemma solution_weights_lookup (n : nat) (x : @Solution T) (i : nat) :
  i < n -> solution_weights n x !! i = Some (x i).
Proof.
  intros Hi. unfold solution_weights.
  rewrite list_lookup_fmap, lookup_seq_lt by lia. reflexivity.
Qed.
End WeightsFacts.

(** ** The methods, run *)

Section MethodFacts.
Context {T : Type} `{ValueType T}.
Variable oracle : list (@Weights T) -> @Weights T -> T -> @Weights T -> T * @Weights T.
Variable solver : @QuadraticSolverBackend T -> @Solution T * T * string * bool.

Lemma setupQp_run (w : @Weights T) (s : State) :
  setupQp w s =
  (Ok tt,
   with_solver
     (Some (solver_calls s ++
              [Initialize (length w + 1) Continuous;
               SetObjective (setup_objective (lambda (_parameter s)) (length w))]))
     s).
Proof.
  unfold setupQp, solver_calls, setup_objective, numberOfParameters, numberOfWeights.
  unfold_M. destruct (_solver s) as [b|] eqn:E; simpl; rewrite ?E; simpl;
    rewrite <- ?app_assoc; reflexivity.
Qed.

Lemma findMinLowerBound_run (w : @Weights T) (s : State) (b : QuadraticSolverBackend)
    (x : Solution) (value : T) (msg : string) (optimal : bool) :
  _solver s = Some b ->
  solver (b ++ [SetConstraints (getConstraints (_bundleCollector s))])
    = (x, value, msg, optimal) ->
  findMinLowerBound solver w s =
  (Ok (solution_weights (length w) x, value),
   with_cerr (if optimal then cerr s else cerr s +:+ not_optimal_warning msg)
     (with_solver
        (Some (b ++ [SetConstraints (getConstraints (_bundleCollector s)); Solve])) s)).
Proof.
  intros Hb Hx. unfold findMinLowerBound. unfold_M. rewrite Hb. simpl. rewrite Hx.
  rewrite copy_loop_all, <- app_assoc. simpl.
  destruct optimal; reflexivity.
Qed.

Lemma findMinLowerBound_null (w : @Weights T) (s : State) :
  _solver s = None -> findMinLowerBound solver w s = (Throw NullSolver, s).
Proof.
  intros Hb. unfold findMinLowerBound. unfold_M. now rewrite Hb.
Qed.

Lemma dot_self (a : @Weights T) : exists d, dot a a = Ok d.
Proof. rewrite dot_equal_arity by reflexivity. eauto. Qed.

(** A pass of the loop, run: it is completed when the gradient the oracle
    returns has the arity of the weights and the solver is there. *)
Lemma iteration_run (v : LoopVars T) (s : State) (b : QuadraticSolverBackend)
    (L_w_tm1 : T) (a_t : @Weights T) (d d' : T)
    (x : Solution) (value : T) (msg : string) (optimal : bool) :
  _solver s = Some b ->
  oracle (oracle_calls s) (w v) vzero (Weights_new (length (w v))) = (L_w_tm1, a_t) ->
  dot (w v) (w v) = Ok d ->
  dot (w v) a_t = Ok d' ->
  solver (b ++ [SetConstraints (_bundleCollector s ++ [(a_t, vsub L_w_tm1 d')])])
    = (x, value, msg, optimal) ->
  iteration oracle solver v s =
  (Ok (vsub (std_min (minValue v)
               (vadd L_w_tm1 (vmul (vmul (lambda (_parameter s)) vhalf) d))) value,
       {| minValue := std_min (minValue v)
                        (vadd L_w_tm1 (vmul (vmul (lambda (_parameter s)) vhalf) d));
          t := ((t v + 1) mod 2 ^ 32)%N;
          w := solution_weights (length (w v)) x |}),
   {| _parameter := _parameter s;
      _bundleCollector := _bundleCollector s ++ [(a_t, vsub L_w_tm1 d')];
      _solver :=
        Some (b ++ [SetConstraints (_bundleCollector s ++ [(a_t, vsub L_w_tm1 d')]); Solve]);
      oracle_calls := oracle_calls s ++ [w v];
      cout := cout s +:+ iteration_banner ((t v + 1) mod 2 ^ 32)%N;
      cerr := if optimal then cerr s else cerr s +:+ not_optimal_warning msg |}).
Proof.
  intros Hb Ho Hd Hd' Hx.
  unfold iteration. unfold mbind, M_bind, modify, call_oracle, gets, lift.
  unfold numberOfWeights. simpl. rewrite Ho, Hd, Hd'. simpl.
  match goal with
  | |- context [findMinLowerBound solver ?w0 ?s0] =>
      rewrite (findMinLowerBound_run w0 s0 b x value msg optimal Hb Hx)
  end.
  unfold mret, M_ret. destruct optimal; reflexivity.
Qed.

(** What a completed pass of the loop has done. *)
Lemma iteration_inv (v v' : LoopVars T) (s s' : State) (eps_t : T) :
  iteration oracle solver v s = (Ok (eps_t, v'), s') ->
  exists b L_w_tm1 a_t d d' x value msg optimal,
    _solver s = Some b /\
    oracle (oracle_calls s) (w v) vzero (Weights_new (length (w v))) = (L_w_tm1, a_t) /\
    dot (w v) (w v) = Ok d /\
    dot (w v) a_t = Ok d' /\
    solver (b ++ [SetConstraints (_bundleCollector s ++ [(a_t, vsub L_w_tm1 d')])])
      = (x, value, msg, optimal) /\
    minValue v' =
      std_min (minValue v) (vadd L_w_tm1 (vmul (vmul (lambda (_parameter s)) vhalf) d)) /\
    t v' = ((t v + 1) mod 2 ^ 32)%N /\
    w v' = solution_weights (length (w v)) x /\
    eps_t = vsub (minValue v') value /\
    _parameter s' = _parameter s /\
    _bundleCollector s' = _bundleCollector s ++ [(a_t, vsub L_w_tm1 d')] /\
    _solver s' =
      Some (b ++ [SetConstraints (_bundleCollector s ++ [(a_t, vsub L_w_tm1 d')]); Solve]) /\
    oracle_calls s' = oracle_calls s ++ [w v] /\
    cout s' = cout s +:+ iteration_banner ((t v + 1) mod 2 ^ 32)%N /\
    cerr s' = (if optimal then cerr s else cerr s +:+ not_optimal_warning msg).
Proof.
  unfold iteration. unfold mbind, M_bind, modify, call_oracle, gets, lift.
  unfold numberOfWeights. simpl.
  destruct (oracle (oracle_calls s) (w v) vzero (Weights_new (length (w v))))
    as [L a] eqn:Ho.
  destruct (dot (w v) (w v)) as [d|e] eqn:Hd; [|discriminate].
  destruct (dot (w v) a) as [d'|e] eqn:Hd'; [|discriminate].
  simpl.
  match goal with
  | |- context [findMinLowerBound solver ?w0 ?s0] => set (s1 := s0)
  end.
  destruct (_solver s) as [b|] eqn:Hb.
  - destruct (solver (b ++ [SetConstraints (_bundleCollector s ++ [(a, vsub L d')])]))
      as [[[x value] msg] optimal] eqn:Hx.
    rewrite (findMinLowerBound_run (w v) s1 b x value msg optimal Hb Hx).
    unfold mret, M_ret. intros [= <- <- <-].
    exists b, L, a, d, d', x, value, msg, optimal. simpl.
    destruct optimal; repeat split; first [reflexivity | assumption].
  - rewrite (findMinLowerBound_null (w v) s1 Hb). discriminate.
Qed.
End MethodFacts.

(** ** The loop *)

Section LoopFacts.
Context {T : Type} `{ValueType T}.
Variable oracle : list (@Weights T) -> @Weights T -> T -> @Weights T -> T * @Weights T.
Variable solver : @QuadraticSolverBackend T -> @Solution T * T * string * bool.

#[local] Abbreviation iteration := (iteration oracle solver).
#[local] Abbreviation passes := (passes oracle solver).
#[local] Abbreviation optimize_loop := (optimize_loop oracle solver).
#[local] Abbreviation optimize := (optimize oracle solver).

Lemma passes_S_inv (k : nat) (v v' : LoopVars T) (s s' : State) :
  passes (S k) v s = Some (v', s') <->
  exists eps_t v1 s1,
    iteration v s = (Ok (eps_t, v1), s1) /\ converged eps_t s1 = false /\
    passes k v1 s1 = Some (v', s').
Proof.
  simpl. destruct (iteration v s) as [[[eps_t v1]|e] s1].
  - destruct (converged eps_t s1) eqn:Hc.
    + split; [discriminate|]. intros (? & ? & ? & [= <- <- <-] & ? & _). congruence.
    + split; [eauto 7|]. now intros (? & ? & ? & [= <- <- <-] & _ & ?).
  - split; [discriminate|]. now intros (? & ? & ? & ? & _).
Qed.

(** The passes can be counted from the other end. *)
Lemma passes_snoc (k : nat) (v v' : LoopVars T) (s s' : State) :
  passes (S k) v s = Some (v', s') <->
  exists eps_t v1 s1,
    passes k v s = Some (v1, s1) /\
    iteration v1 s1 = (Ok (eps_t, v'), s') /\ converged eps_t s' = false.
Proof.
  revert v s. induction k as [|k IH]; intros v s.
  - rewrite passes_S_inv. simpl. split.
    + intros (eps_t & v1 & s1 & Hi & Hc & [= <- <-]). eauto 7.
    + intros (eps_t & v1 & s1 & [= <- <-] & Hi & Hc). eauto 7.
  - rewrite passes_S_inv. split.
    + intros (eps_t & v1 & s1 & Hi & Hc & Hp).
      apply IH in Hp as (eps' & v2 & s2 & Hp & Hi' & Hc').
      exists eps', v2, s2. split; [|auto].
      apply passes_S_inv. eauto 7.
    + intros (eps' & v2 & s2 & Hp & Hi' & Hc').
      apply passes_S_inv in Hp as (eps_t & v1 & s1 & Hi & Hc & Hp).
      exists eps_t, v1, s1. split; [auto|]. split; [auto|].
      apply IH. eauto 7.
Qed.

Lemma optimize_loop_returns (fuel : nat) (v v' : LoopVars T) (s s' : State) :
  optimize_loop fuel v s = Some (Ok v', s') <->
  exists k v1 s1 eps_t,
    k < fuel /\ passes k v s = Some (v1, s1) /\
    iteration v1 s1 = (Ok (eps_t, v'), s') /\ converged eps_t s' = true.
Proof.
  revert v s. induction fuel as [|fuel IH]; intros v s.
  - simpl. split; [discriminate|]. intros (k & _ & _ & _ & Hk & _). lia.
  - simpl. destruct (iteration v s) as [[[eps_t v1]|e] s1] eqn:Hi.
    + destruct (converged eps_t s1) eqn:Hc.
      * split.
        -- intros [= <- <-]. exists 0, v, s, eps_t. simpl. auto with lia.
        -- intros ([|k] & v2 & s2 & eps' & Hk & Hp & Hi' & Hc').
           ++ simpl in Hp. injection Hp as <- <-. congruence.
           ++ simpl in Hp. rewrite Hi, Hc in Hp. discriminate.
      * rewrite IH. split.
        -- intros (k & v2 & s2 & eps' & Hk & Hp & Hi' & Hc').
           exists (S k), v2, s2, eps'. simpl. rewrite Hi, Hc. auto with lia.
        -- intros ([|k] & v2 & s2 & eps' & Hk & Hp & Hi' & Hc').
           ++ simpl in Hp. injection Hp as <- <-. congruence.
           ++ simpl in Hp. rewrite Hi, Hc in Hp.
              exists k, v2, s2, eps'. auto with lia.
    + split; [discriminate|].
      intros ([|k] & v2 & s2 & eps' & Hk & Hp & Hi' & Hc').
      * simpl in Hp. injection Hp as <- <-. congruence.
      * simpl in Hp. rewrite Hi in Hp. discriminate.
Qed.

Lemma optimize_loop_continues (fuel : nat) (v : LoopVars T) (s : State) :
  optimize_loop fuel v s = None <-> is_Some (passes fuel v s).
Proof.
  revert v s. induction fuel as [|fuel IH]; intros v s; simpl.
  - split; eauto.
  - destruct (iteration v s) as [[[eps_t v1]|e] s1].
    + destruct (converged eps_t s1); [|apply IH].
      split; [discriminate|]. now intros [? ?].
    + split; [discriminate|]. now intros [? ?].
Qed.

(** [steps] is never read: a pass does the same under any step cap. *)
Lemma iteration_with_steps (n : N) (v : LoopVars T) (s : State) :
  iteration v (with_steps n s) = prod_map id (with_steps n) (iteration v s).
Proof.
  unfold iteration, findMinLowerBound. unfold_M. simpl.
  destruct (oracle _ _ _ _) as [L a].
  destruct (dot (w v) (w v)); [|reflexivity].
  destruct (dot (w v) a); [|reflexivity]. simpl.
  destruct (_solver s) as [b|]; [|reflexivity]. simpl.
  destruct (solver _) as [[[x value] msg] optimal].
  destruct optimal; reflexivity.
Qed.

Lemma optimize_loop_with_steps (n : N) (fuel : nat) (v : LoopVars T) (s : State) :
  optimize_loop fuel v (with_steps n s)
  = prod_map id (with_steps n) <$> optimize_loop fuel v s.
Proof.
  revert v s. induction fuel as [|fuel IH]; intros v s; [reflexivity|].
  simpl. rewrite iteration_with_steps.
  destruct (iteration v s) as [[[eps_t v1]|e] s1]; simpl; [|reflexivity].
  unfold converged. simpl. fold (converged eps_t s1).
  destruct (converged eps_t s1); [reflexivity|apply IH].
Qed.

Lemma optimize_with_steps (n : N) (fuel : nat) (w0 : @Weights T) (s : State) :
  optimize fuel w0 (with_steps n s)
  = prod_map id (with_steps n) <$> optimize fuel w0 s.
Proof.
  unfold optimize. rewrite !setupQp_run.
  change (with_solver ?b (with_steps n s)) with (with_steps n (with_solver b s)).
  change (solver_calls (with_steps n s)) with (solver_calls s).
  change (lambda (_parameter (with_steps n s))) with (lambda (_parameter s)).
  rewrite optimize_loop_with_steps.
  destruct (optimize_loop _ _ _) as [[[[]|] ?]|]; reflexivity.
Qed.
End LoopFacts.

(** ** What a run leaves behind *)

Section RunFacts.
Context {T : Type} `{ValueType T}.
Variable oracle : list (@Weights T) -> @Weights T -> T -> @Weights T -> T * @Weights T.
Variable solver : @QuadraticSolverBackend T -> @Solution T * T * string * bool.

Lemma count_Solve_app (b b' : @QuadraticSolverBackend T) :
  count_Solve (b ++ b') = count_Solve b + count_Solve b'.
Proof. unfold count_Solve. now rewrite List.filter_app, length_app. Qed.

Lemma solver_calls_Some (s : @State T) (b : QuadraticSolverBackend) :
  _solver s = Some b -> solver_calls s = b.
Proof. unfold solver_calls. now intros ->. Qed.

(** A pass that throws has called the solver no further. *)
Lemma iteration_throws (v : LoopVars T) (s s' : State) (e : Exception) :
  iteration oracle solver v s = (Throw e, s') -> _solver s' = _solver s.
Proof.
  unfold iteration, findMinLowerBound. unfold_M. simpl.
  destruct (oracle _ _ _ _) as [L a].
  destruct (dot (w v) (w v)); [|now intros [= _ <-]].
  destruct (dot (w v) a); [|now intros [= _ <-]]. simpl.
  destruct (_solver s) as [b|] eqn:Hb; [|intros [= _ <-]; simpl; congruence]. simpl.
  destruct (solver _) as [[[x value] msg] optimal].
  destruct optimal; discriminate.
Qed.

(** One completed pass: the frame, and what is appended where. *)
Lemma iteration_appends (v v' : LoopVars T) (s s' : State) (eps_t : T) :
  iteration oracle solver v s = (Ok (eps_t, v'), s') ->
  _parameter s' = _parameter s /\
  length (w v') = length (w v) /\
  (exists h, _bundleCollector s' = _bundleCollector s ++ [h]) /\
  oracle_calls s' = oracle_calls s ++ [w v] /\
  (exists c, solver_calls s' = solver_calls s ++ [SetConstraints c; Solve]) /\
  (exists b, solver_calls s' = b ++ [Solve] /\
             w v' = solution_weights (length (w v)) (solver b).1.1.1).
Proof.
  intros Hi. apply iteration_inv in Hi
    as (b & L & a & d & d' & x & value & msg & optimal & Hb & _ & _ & _ & Hx &
        _ & _ & Hw & _ & Hp & Hc & Hs & Ho & _).
  rewrite (solver_calls_Some s b Hb), (solver_calls_Some s' _ Hs).
  repeat split; eauto.
  - now rewrite Hw, solution_weights_length.
  - eexists (b ++ [SetConstraints _]). rewrite <- app_assoc. split; [reflexivity|].
    now rewrite Hx.
Qed.

Lemma passes_appends (k : nat) (v v' : LoopVars T) (s s' : State) :
  passes oracle solver k v s = Some (v', s') ->
  _parameter s' = _parameter s /\
  length (w v') = length (w v) /\
  (exists hs, _bundleCollector s' = _bundleCollector s ++ hs /\ length hs = k) /\
  (exists ps, oracle_calls s' = oracle_calls s ++ ps /\ length ps = k /\
              (0 < k -> head ps = Some (w v))) /\
  (exists cs, solver_calls s' = solver_calls s ++ cs /\
              Forall (fun c => is_pass_call c = true) cs /\ count_Solve cs = k).
Proof.
  revert v s. induction k as [|k IH]; intros v s.
  - intros [= <- <-]. repeat split; try (exists []; rewrite app_nil_r); auto with lia.
  - rewrite passes_S_inv. intros (eps_t & v1 & s1 & Hi & _ & Hp).
    apply iteration_appends in Hi as (Hp1 & Hw1 & [h Hc1] & Ho1 & [c Hs1] & _).
    apply IH in Hp as (Hp2 & Hw2 & (hs & Hc2 & Hhs) & (ps & Ho2 & Hps & _) &
                       (cs & Hs2 & Hcs & Hn)).
    split; [congruence|]. split; [congruence|]. repeat split.
    + exists (h :: hs). rewrite Hc2, Hc1, <- app_assoc. simpl. auto with lia.
    + exists (w v :: ps). rewrite Ho2, Ho1, <- app_assoc. simpl. auto with lia.
    + exists ([SetConstraints c; Solve] ++ cs).
      rewrite Hs2, Hs1, <- app_assoc. split; [reflexivity|]. split.
      * apply Forall_app. split; [|assumption]. repeat constructor.
      * rewrite count_Solve_app, Hn. reflexivity.
Qed.

(** The oracle is called at the weights of every pass, first at those the
    loop is entered with. *)
Lemma passes_oracle_calls (k : nat) (v v' : LoopVars T) (s s' : State) :
  passes oracle solver k v s = Some (v', s') ->
  exists ps, oracle_calls s' ++ [w v'] = oracle_calls s ++ w v :: ps /\ length ps = k.
Proof.
  revert v s. induction k as [|k IH]; intros v s.
  - intros [= <- <-]. now exists [].
  - rewrite passes_S_inv. intros (eps_t & v1 & s1 & Hi & _ & Hp).
    apply iteration_appends in Hi as (_ & _ & _ & Ho & _).
    apply IH in Hp as (ps & Hps & Hlen).
    exists (w v1 :: ps). rewrite Hps, Ho, <- app_assoc. simpl. auto.
Qed.

(** The best value seen compares to itself: it is never a NaN. *)
Lemma std_min_refl `{!ValueOrder T} (m x : T) :
  vleb m m = true -> vleb (std_min m x) (std_min m x) = true.
Proof.
  unfold std_min. destruct (vltb x m) eqn:Hlt; [|auto].
  intros _. eapply vltb_vleb_refl, Hlt.
Qed.

Lemma std_min_le `{!ValueOrder T} (m x : T) :
  vleb m m = true -> vleb (std_min m x) m = true.
Proof.
  unfold std_min. destruct (vltb x m) eqn:Hlt; [|auto].
  intros _. apply vltb_vleb, Hlt.
Qed.

Lemma passes_minValue_refl `{!ValueOrder T} (k : nat) (v v' : LoopVars T) (s s' : State) :
  vleb (minValue v) (minValue v) = true ->
  passes oracle solver k v s = Some (v', s') ->
  vleb (minValue v') (minValue v') = true.
Proof.
  revert v s. induction k as [|k IH]; intros v s Hv.
  - now intros [= <- <-].
  - rewrite passes_S_inv. intros (eps_t & v1 & s1 & Hi & _ & Hp).
    eapply IH; [|exact Hp].
    apply iteration_inv in Hi
      as (b & L & a & d & d' & x & value & msg & optimal & _ & _ & _ & _ & _ & Hm & _).
    rewrite Hm. now apply std_min_refl.
Qed.
End RunFacts.

(** ** A run that does not return *)

(** A run that never returns: the oracle is constant, the backend keeps
    answering with the value [0], so the gap stays at [5]; the cap of three
    steps changes nothing. *)
Lemma stuck_loop_continues (fuel : nat) (v : LoopVars xreal) (s : @State xreal) :
  w v = [Fin 0] ->
  minValue v = PInf \/ minValue v = Fin 5 ->
  is_Some (_solver s) ->
  _parameter s = capped_parameter ->
  optimize_loop constant_oracle stuck_solver fuel v s = None.
Proof.
  revert v s. induction fuel as [|fuel IH]; intros v s Hw Hm [b Hb] Hp; [reflexivity|].
  simpl.
  rewrite (iteration_run constant_oracle stuck_solver v s b
             (Fin 5) [Fin 0] (Fin 0) (Fin 0) (fun _ => Fin 0) (Fin 0) "" true);
    try (rewrite ?Hw; now vm_compute).
  assert (Hmin : std_min (minValue v)
                   (vadd (Fin 5) (vmul (vmul (lambda (_parameter s)) vhalf) (Fin 0)))
                 = Fin 5).
  { rewrite Hp. destruct Hm as [-> | ->]; now vm_compute. }
  rewrite Hmin. simpl. rewrite Hp. simpl.
  apply IH; simpl; rewrite ?Hw; eauto.
Qed.

(** ** The objective [setupQp] builds *)

Section Objective.
Context {T : Type} `{ValueType T}.

Lemma regularizer_loop (lam : T) (m k : nat) :
  let o := for_loop k (fun i obj => setQuadraticCoefficient i i (vmul vhalf lam) obj)
             (QuadraticObjective_new m) in
  obj_size o = m /\ obj_linear o = ∅ /\ obj_sense o = Minimize /\
  forall i j, obj_quadratic o !! (i, j)
              = if decide (i = j /\ i < k) then Some (vmul vhalf lam) else None.
Proof.
  induction k as [|k IH]; simpl.
  - repeat split; auto. intros i j. rewrite lookup_empty.
    case_decide; [lia|reflexivity].
  - rewrite for_loop_S. simpl in IH. destruct IH as (Hsize & Hlin & Hsense & Hq).
    simpl. repeat split; auto. intros i j.
    destruct (decide ((k, k) = (i, j))) as [[= <- <-]|Hne].
    + rewrite lookup_insert_eq. case_decide; [reflexivity|lia].
    + rewrite lookup_insert_ne, Hq by assumption.
      repeat case_decide; try reflexivity; try lia.
      exfalso. apply Hne. f_equal; lia.
Qed.

Lemma setup_objective_content (lam : T) (n : nat) :
  obj_size (setup_objective lam n) = n + 1 /\
  (forall i j, obj_quadratic (setup_objective lam n) !! (i, j)
               = if decide (i = j /\ i < n) then Some (vmul vhalf lam) else None) /\
  (forall i, obj_linear (setup_objective lam n) !! i
             = if decide (i = n) then Some vone else None) /\
  obj_sense (setup_objective lam n) = Minimize.
Proof.
  unfold setup_objective. simpl.
  destruct (regularizer_loop lam (n + 1) n) as (Hsize & Hlin & _ & Hq).
  repeat split; auto.
  intros i. rewrite Hlin. case_decide as Hi.
  - subst i. apply lookup_insert_eq.
  - rewrite lookup_insert_ne by congruence. apply lookup_empty.
Qed.
End Objective.

Section Calls.
Context {T : Type} `{ValueType T}.
Variable oracle : list (@Weights T) -> @Weights T -> T -> @Weights T -> T * @Weights T.
Variable solver : @QuadraticSolverBackend T -> @Solution T * T * string * bool.

(** Whatever way the loop ends, it has called the backend for
    [setConstraints] and [solve] only. *)
Lemma optimize_loop_calls (fuel : nat) (v : LoopVars T) (s s' : State)
    (out : Result (LoopVars T)) :
  optimize_loop oracle solver fuel v s = Some (out, s') ->
  exists cs, solver_calls s' = solver_calls s ++ cs /\
             Forall (fun c => is_pass_call c = true) cs.
Proof.
  revert v s. induction fuel as [|fuel IH]; intros v s; [discriminate|].
  simpl. destruct (iteration oracle solver v s) as [[[eps_t v1]|e] s1] eqn:Hi.
  - apply iteration_appends in Hi as (_ & _ & _ & _ & [c Hs1] & _).
    destruct (converged eps_t s1).
    + intros [= <- <-]. exists [SetConstraints c; Solve].
      split; [assumption|repeat constructor].
    + intros Hloop. apply IH in Hloop as (cs & Hs' & Hcs).
      exists ([SetConstraints c; Solve] ++ cs).
      rewrite Hs', Hs1, <- app_assoc. split; [reflexivity|].
      apply Forall_app. split; [repeat constructor|assumption].
  - intros [= <- <-]. apply iteration_throws in Hi.
    exists []. unfold solver_calls. rewrite Hi, app_nil_r. auto.
Qed.
End Calls.

(** ** The scenario of the constant oracle *)

Lemma Qred_eq (p q : Q) : (p == q)%Q -> Qred p = Qred q.
Proof. apply Qred_complete. Qed.

(** The objective of the scenario at a real point [(a, b)] is
    [a^2 / 2 + b]. *)
Lemma scenario_value (x : @Solution xreal) (a b : Q) :
  x 0 = Fin a -> x 1 = Fin b ->
  exists q, qp_value scenario_objective x = Fin q /\ (q == (1 # 2) * (a * a) + b)%Q.
Proof.
  intros Ha Hb. unfold qp_value, scenario_objective. simpl.
  rewrite !insert_empty, !map_fold_singleton. simpl. rewrite Ha, Hb. simpl.
  eexists. split; [reflexivity|].
  rewrite !Qred_correct. ring.
Qed.

(** Its constraint at a real point [(a, b)] is [5 <= b]. *)
Lemma scenario_feasible (x : @Solution xreal) (a b : Q) :
  x 0 = Fin a -> x 1 = Fin b ->
  qp_feasible 1 [([Fin 0], Fin 5)] x <-> (5 <= b)%Q.
Proof.
  intros Ha Hb. unfold qp_feasible. rewrite Forall_singleton.
  unfold inner_product, solution_weights. simpl. rewrite Ha, Hb. simpl.
  rewrite Qle_bool_iff, !Qred_correct.
  assert (E : (0 + a * 0 + 5 == 5)%Q) by ring.
  rewrite E. reflexivity.
Qed.

Lemma real_point_2 (x : @Solution xreal) :
  real_point 2 x <-> exists a b, x 0 = Fin a /\ x 1 = Fin b.
Proof.
  split.
  - intros Hx. pose proof (Hx 0 ltac:(lia)) as H0. pose proof (Hx 1 ltac:(lia)) as H1.
    destruct (x 0) as [a| | |], (x 1) as [b| | |]; simpl in *; try contradiction.
    eauto.
  - intros (a & b & Ha & Hb) [|[|i]] Hi; [rewrite Ha|rewrite Hb|lia]; exact I.
Qed.

(** The subproblem of the scenario has one exact solution, [w = 0] and
    [xi = 5], of value [5]. *)
Lemma scenario_optimum (x : @Solution xreal) (value : xreal) (msg : string)
    (optimal : bool) :
  solved_exactly scenario_objective [([Fin 0], Fin 5)] (x, value, msg, optimal) ->
  exists a b q,
    x 0 = Fin a /\ x 1 = Fin b /\ value = Fin q /\
    (a == 0)%Q /\ (b == 5)%Q /\ (q == 5)%Q /\ optimal = true.
Proof.
  unfold solved_exactly. cbn [fst snd].
  change (obj_size scenario_objective) with 2. change (2 - 1) with 1.
  intros (Hreal & Hfeas & Hval & Hmin & Hopt).
  apply real_point_2 in Hreal as (a & b & Ha & Hb).
  apply (scenario_feasible x a b Ha Hb) in Hfeas.
  destruct (scenario_value x a b Ha Hb) as (q & Hq & Hqv).
  set (y := fun i : nat => nth i [Fin 0; Fin 5] (Fin 0)).
  assert (Hy : xleb (qp_value scenario_objective x) (qp_value scenario_objective y) = true).
  { apply Hmin.
    - apply real_point_2. exists 0%Q, 5%Q. auto.
    - apply (scenario_feasible y 0 5); [reflexivity..|]. apply Qle_refl. }
  destruct (scenario_value y 0 5 eq_refl eq_refl) as (qy & Hqy & Hqyv).
  rewrite Hq, Hqy in Hy. simpl in Hy. apply Qle_bool_iff in Hy.
  rewrite Hq in Hval. destruct value as [q'| | |]; simpl in Hval; try contradiction.
  assert (Ha0 : (a == 0)%Q) by nra.
  exists a, b, q'. repeat split; auto.
  - rewrite Ha0 in Hqv. lra.
  - rewrite Ha0 in Hqv. lra.
Qed.

(** The backend of the scenario solves that subproblem exactly. *)
Lemma scenario_solver_exact :
  solves_exactly scenario_solver scenario_objective [([Fin 0], Fin 5)].
Proof.
  intros b _ _. unfold scenario_solver, solved_exactly. cbn [fst snd].
  change (obj_size scenario_objective) with 2. change (2 - 1) with 1.
  set (y := fun i : nat => nth i [Fin 0; Fin 5] (Fin 0)).
  destruct (scenario_value y 0 5 eq_refl eq_refl) as (qy & Hqy & Hqyv).
  split; [|split; [|split; [|split]]].
  - apply real_point_2. exists 0%Q, 5%Q. auto.
  - apply (scenario_feasible y 0 5); [reflexivity..|]. apply Qle_refl.
  - rewrite Hqy. simpl. rewrite Hqyv. reflexivity.
  - intros z Hz Hfeas. apply real_point_2 in Hz as (a & c & Ha & Hc).
    apply (scenario_feasible z a c Ha Hc) in Hfeas.
    destruct (scenario_value z a c Ha Hc) as (qz & Hqz & Hqzv).
    rewrite Hqy, Hqz. simpl. apply Qle_bool_iff.
    rewrite Hqyv, Hqzv.
    nra.
  - reflexivity.
Qed.

Lemma scenario_setup :
  setupQp [Fin 0] (BundleOptimizer_new scenario_parameter) = (Ok tt, scenario_entry).
Proof. reflexivity. Qed.

(** ** Two [double]s that differ *)

Lemma float_neq_5_6 : 5%float <> 6%float.
Proof.
  intros Heq. apply (f_equal (fun x => PrimFloat.eqb x 6)) in Heq.
  vm_compute in Heq. discriminate.
Qed.

(** * The claims *)

(** C1 (the code departs from it): [dot] does not return the inner product.
    On vectors of equal arity it returns the sum of the componentwise sums,
    [(a_0 + b_0) + (a_1 + b_1) + ...]; on the [double]s [a = (2)] and
    [b = (3)] that is [5], where the inner product is [6]. *)
Theorem dot_adds_the_components :
  (forall (T : Type) (V : ValueType T) (a b : @Weights T),
      numberOfParameters a = numberOfParameters b ->
      dot a b = Ok (fold_left (fun d p => vadd d (vadd p.1 p.2)) (zip a b) vzero)) /\
  dot [2%float] [3%float] = Ok 5%float /\
  inner_product [2%float] [3%float] = 6%float /\
  dot [2%float] [3%float] <> Ok (inner_product [2%float] [3%float]).
Proof.
  split; [intros; now apply dot_equal_arity|].
  split; [vm_compute; reflexivity|].
  split; [vm_compute; reflexivity|].
  intros Heq.
  apply (f_equal (fun r => match r with Ok x => x | Throw _ => 0%float end)) in Heq.
  vm_compute in Heq. exact (float_neq_5_6 Heq).
Qed.

(** C2: [optimize] returns exactly when some pass of its loop computes a
    gap [eps_t] with [eps_t <= min_gap], the passes before having computed
    gaps for which the test fails, and it returns [ReachedMinGap] then; the
    gap of a pass is [minValue] less the value the backend reports. As long
    as the test fails the loop goes on, for any number of passes. The step
    cap is not read: a run under another cap is the same run, and the run of
    the last line has not returned after any number of passes although its
    cap is three. *)
Theorem optimize_returns_exactly_at_min_gap :
  forall (T : Type) (V : ValueType T)
         (oracle : list (@Weights T) -> @Weights T -> T -> @Weights T -> T * @Weights T)
         (solver : @QuadraticSolverBackend T -> @Solution T * T * string * bool)
         (w0 : @Weights T) (s : @State T),
    (forall fuel r w' s',
        optimize oracle solver fuel w0 s = Some (Ok (r, w'), s') <->
        r = ReachedMinGap /\
        exists k v1 s1 eps_t v',
          k < fuel /\
          passes oracle solver k (loop_entry w0) (setupQp w0 s).2 = Some (v1, s1) /\
          iteration oracle solver v1 s1 = (Ok (eps_t, v'), s') /\
          vleb eps_t (min_gap (_parameter s)) = true /\
          w' = w v') /\
    (forall v1 s1 eps_t v' s',
        iteration oracle solver v1 s1 = (Ok (eps_t, v'), s') ->
        exists b,
          _solver s1 = Some b /\
          eps_t = vsub (minValue v')
                    (solver (b ++ [SetConstraints (getConstraints (_bundleCollector s'))])).1.1.2) /\
    (forall k v' s',
        passes oracle solver (S k) (loop_entry w0) (setupQp w0 s).2 = Some (v', s') <->
        exists eps_t v1 s1,
          passes oracle solver k (loop_entry w0) (setupQp w0 s).2 = Some (v1, s1) /\
          iteration oracle solver v1 s1 = (Ok (eps_t, v'), s') /\
          vleb eps_t (min_gap (_parameter s)) = false) /\
    (forall fuel,
        optimize oracle solver fuel w0 s = None <->
        is_Some (passes oracle solver fuel (loop_entry w0) (setupQp w0 s).2)) /\
    (forall fuel n,
        optimize oracle solver fuel w0 (with_steps n s)
        = prod_map id (with_steps n) <$> optimize oracle solver fuel w0 s) /\
    (forall fuel,
        optimize constant_oracle stuck_solver fuel [Fin 0]
          (BundleOptimizer_new capped_parameter) = None).
Proof.
  intros T V oracle solver w0 s.
  assert (Hpar : forall k v1 s1 eps_t v' s',
             passes oracle solver k (loop_entry w0) (setupQp w0 s).2 = Some (v1, s1) ->
             iteration oracle solver v1 s1 = (Ok (eps_t, v'), s') ->
             converged eps_t s' = vleb eps_t (min_gap (_parameter s))).
  { intros k v1 s1 eps_t v' s' Hp Hi. unfold converged.
    apply passes_appends in Hp as (Hp & _). apply iteration_appends in Hi as (Hi & _).
    rewrite Hi, Hp, setupQp_run. reflexivity. }
  split; [|split; [|split; [|split; [|split]]]].
  - intros fuel r w' s'. unfold optimize.
    destruct (setupQp w0 s) as [[[]|e] s0] eqn:Hs0;
      [|rewrite setupQp_run in Hs0; discriminate].
    simpl in Hpar |- *.
    destruct (optimize_loop oracle solver fuel (loop_entry w0) s0)
      as [[[[m n wf]|e] sf]|] eqn:Hloop.
    + apply optimize_loop_returns in Hloop as (k & v1 & s1 & eps_t & Hk & Hp & Hi & Hc).
      split.
      * intros [= <- <- <-]. split; [reflexivity|].
        exists k, v1, s1, eps_t, {| minValue := m; t := n; w := wf |}.
        rewrite <- (Hpar k v1 s1 eps_t _ sf Hp Hi). auto.
      * intros (-> & k' & v1' & s1' & eps' & v' & Hk' & Hp' & Hi' & Hc' & ->).
        assert (Hloop' : optimize_loop oracle solver fuel (loop_entry w0) s0
                         = Some (Ok v', s')).
        { apply optimize_loop_returns. exists k', v1', s1', eps'.
          rewrite (Hpar k' v1' s1' eps' v' s' Hp' Hi'). auto. }
        assert (Hloop : optimize_loop oracle solver fuel (loop_entry w0) s0
                        = Some (Ok {| minValue := m; t := n; w := wf |}, sf)).
        { apply optimize_loop_returns. eauto 10. }
        rewrite Hloop in Hloop'. now injection Hloop' as <- <-.
    + split; [discriminate|].
      intros (-> & k' & v1' & s1' & eps' & v' & Hk' & Hp' & Hi' & Hc' & ->).
      assert (Hloop' : optimize_loop oracle solver fuel (loop_entry w0) s0
                       = Some (Ok v', s')).
      { apply optimize_loop_returns. exists k', v1', s1', eps'.
        rewrite (Hpar k' v1' s1' eps' v' s' Hp' Hi'). auto. }
      congruence.
    + split; [discriminate|].
      intros (-> & k' & v1' & s1' & eps' & v' & Hk' & Hp' & Hi' & Hc' & ->).
      assert (Hloop' : optimize_loop oracle solver fuel (loop_entry w0) s0
                       = Some (Ok v', s')).
      { apply optimize_loop_returns. exists k', v1', s1', eps'.
        rewrite (Hpar k' v1' s1' eps' v' s' Hp' Hi'). auto. }
      congruence.
  - intros v1 s1 eps_t v' s' Hi.
    apply iteration_inv in Hi
      as (b & L & a & d & d' & x & value & msg & optimal & Hb & _ & _ & _ & Hx &
          _ & _ & _ & Heps & _ & Hc & _).
    exists b. split; [exact Hb|]. unfold getConstraints. now rewrite Hc, Hx.
  - intros k v' s'. rewrite passes_snoc. split.
    + intros (eps_t & v1 & s1 & Hp & Hi & Hc). exists eps_t, v1, s1.
      rewrite <- (Hpar k v1 s1 eps_t v' s' Hp Hi). auto.
    + intros (eps_t & v1 & s1 & Hp & Hi & Hc). exists eps_t, v1, s1.
      rewrite (Hpar k v1 s1 eps_t v' s' Hp Hi). auto.
  - intros fuel. unfold optimize.
    destruct (setupQp w0 s) as [[[]|e] s0] eqn:Hs0;
      [|rewrite setupQp_run in Hs0; discriminate].
    simpl. rewrite <- optimize_loop_continues.
    destruct (optimize_loop oracle solver fuel (loop_entry w0) s0)
      as [[[[m n wf]|e] sf]|]; split; congruence.
  - intros fuel n. apply optimize_with_steps.
  - intros fuel. unfold optimize. rewrite setupQp_run.
    rewrite stuck_loop_continues; simpl; eauto.
Qed.

(** C3: the oracle is constant, [L(w) = 5] with gradient [0]; [lambda] is
    [1.0], [min_gap] is [1e-5], the one weight starts at [0], and the
    backend solves the subproblem exactly. Then the first pass stores the
    hyperplane [(0, 5)], asks the backend once, whose answer is [w = 0],
    [xi = 5] of value [5], and computes the gap [0], which is within
    [min_gap]: [optimize] returns [ReachedMinGap] after that one pass, with
    the weight [0]. *)
Theorem constant_oracle_scenario :
  forall (solver : @QuadraticSolverBackend xreal -> @Solution xreal * xreal * string * bool)
         (fuel : nat),
    solves_exactly solver scenario_objective [([Fin 0], Fin 5)] ->
    0 < fuel ->
    exists (x : @Solution xreal) (value : xreal) (msg : string)
           (v' : LoopVars xreal) (s' : @State xreal),
      solver_calls scenario_entry
        = [Initialize 2 Continuous; SetObjective scenario_objective] /\
      solver [Initialize 2 Continuous; SetObjective scenario_objective;
              SetConstraints [([Fin 0], Fin 5)]]
        = (x, value, msg, true) /\
      xeq (x 0) (Fin 0) /\ xeq (x 1) (Fin 5) /\ xeq value (Fin 5) /\
      iteration constant_oracle solver (loop_entry [Fin 0]) scenario_entry
        = (Ok (Fin 0, v'), s') /\
      converged (Fin 0) s' = true /\
      _bundleCollector s' = [([Fin 0], Fin 5)] /\
      oracle_calls s' = [[Fin 0]] /\
      count_Solve (solver_calls s') = 1 /\
      t v' = 1%N /\
      w v' = [x 0] /\
      optimize constant_oracle solver fuel [Fin 0] (BundleOptimizer_new scenario_parameter)
        = Some (Ok (ReachedMinGap, [x 0]), s').
Proof.
  intros solver fuel Hexact Hfuel.
  set (b1 := [Initialize 2 Continuous; SetObjective scenario_objective;
              SetConstraints [([Fin 0], Fin 5)]]).
  destruct (solver b1) as [[[x value] msg] optimal] eqn:Hx.
  pose proof (Hexact b1 eq_refl eq_refl) as Hopt. rewrite Hx in Hopt.
  apply scenario_optimum in Hopt
    as (a & b & q & Ha & Hb & -> & Ha0 & Hb5 & Hq5 & ->).
  pose proof (iteration_run constant_oracle solver (loop_entry [Fin 0]) scenario_entry
                [Initialize 2 Continuous; SetObjective scenario_objective]
                (Fin 5) [Fin 0] (Fin 0) (Fin 0) x (Fin q) msg true
                eq_refl eq_refl eq_refl eq_refl Hx) as Hi.
  assert (Hgap : vsub (std_min (minValue (loop_entry [Fin 0]))
                         (vadd (Fin 5)
                            (vmul (vmul (lambda (_parameter scenario_entry)) vhalf) (Fin 0))))
                   (Fin q) = Fin 0).
  { change (Fin (Qred (5 + Qred (- q))) = Fin (Qred 0)). f_equal.
    apply Qred_eq. rewrite Qred_correct, Hq5. reflexivity. }
  rewrite Hgap in Hi.
  eexists x, (Fin q), msg, _, _.
  split; [reflexivity|]. split; [reflexivity|].
  split; [rewrite Ha; exact Ha0|]. split; [rewrite Hb; exact Hb5|].
  split; [exact Hq5|].
  split; [exact Hi|].
  split; [reflexivity|]. split; [reflexivity|]. split; [reflexivity|].
  split; [reflexivity|]. split; [reflexivity|]. split; [reflexivity|].
  destruct fuel as [|fuel]; [lia|].
  unfold optimize. rewrite scenario_setup.
  cbn [optimize_loop]. rewrite Hi. reflexivity.
Qed.

(** The scenario with the backend that answers [w = 0], [xi = 5]. *)
Lemma constant_oracle_scenario_witness :
  exists (v' : LoopVars xreal) (s' : @State xreal),
    iteration constant_oracle scenario_solver (loop_entry [Fin 0]) scenario_entry
      = (Ok (Fin 0, v'), s') /\
    _bundleCollector s' = [([Fin 0], Fin 5)] /\
    optimize constant_oracle scenario_solver 1 [Fin 0] (BundleOptimizer_new scenario_parameter)
      = Some (Ok (ReachedMinGap, [Fin 0]), s').
Proof.
  destruct (constant_oracle_scenario scenario_solver 1 scenario_solver_exact
              (le_n 1))
    as (x & value & msg & v' & s' & _ & Hx & _ & _ & _ & Hi & _ & Hc & _ & _ & _ & _ & Hopt).
  exists v', s'. split; [exact Hi|]. split; [exact Hc|].
  injection Hx as <- _ _. exact Hopt.
Defined.

(** C4: [minValue] starts at infinity, and every pass of the loop replaces
    it by [std::min] of itself and the regularized value it observes, which
    is at most what it was; every pass appends one hyperplane, with the
    gradient the oracle returned as slope, to the end of the store and
    leaves those already stored as they were, so after [k] passes the store
    holds [k] more than when the loop was entered. *)
Theorem minValue_never_increases_and_store_grows :
  forall (T : Type) (V : ValueType T) (O : ValueOrder T)
         (oracle : list (@Weights T) -> @Weights T -> T -> @Weights T -> T * @Weights T)
         (solver : @QuadraticSolverBackend T -> @Solution T * T * string * bool)
         (w0 : @Weights T) (s0 : @State T)
         (k : nat) (v v' : LoopVars T) (s s' : @State T) (eps_t : T),
    passes oracle solver k (loop_entry w0) s0 = Some (v, s) ->
    iteration oracle solver v s = (Ok (eps_t, v'), s') ->
    minValue (loop_entry w0) = vinfinity /\
    (exists L_w_tm1 a_t d hs b_t,
        oracle (oracle_calls s) (w v) vzero (Weights_new (numberOfWeights (w v)))
          = (L_w_tm1, a_t) /\
        dot (w v) (w v) = Ok d /\
        minValue v'
          = std_min (minValue v)
              (vadd L_w_tm1 (vmul (vmul (lambda (_parameter s)) vhalf) d)) /\
        _bundleCollector s = _bundleCollector s0 ++ hs /\
        length hs = k /\
        _bundleCollector s' = _bundleCollector s0 ++ hs ++ [(a_t, b_t)]) /\
    vleb (minValue v') (minValue v) = true.
Proof.
  intros T V O oracle solver w0 s0 k v v' s s' eps_t Hp Hi.
  assert (Hrefl : vleb (minValue v) (minValue v) = true).
  { apply (passes_minValue_refl oracle solver k (loop_entry w0) v s0 s); [|exact Hp].
    apply vleb_infinity_refl. }
  apply passes_appends in Hp as (_ & _ & (hs & Hc & Hhs) & _).
  apply iteration_inv in Hi
    as (b & L & a & d & d' & x & value & msg & optimal & _ & Ho & Hd & _ & _ &
        Hm & _ & _ & _ & _ & Hc' & _).
  split; [reflexivity|]. split.
  - exists L, a, d, hs, (vsub L d').
    rewrite Hc', Hc, <- app_assoc. auto 10.
  - rewrite Hm. now apply std_min_le.
Qed.

(** The second pass of a run on [double]s: [minValue] goes from [12] to [10]. *)
Lemma minValue_never_increases_and_store_grows_witness :
  exists (v v' : LoopVars float) (s s' : @State float) (eps_t : float),
    passes slope_oracle (zero_solver "" true) 1 (loop_entry [2%float])
      (double_ready [2%float]) = Some (v, s) /\
    iteration slope_oracle (zero_solver "" true) v s = (Ok (eps_t, v'), s') /\
    minValue v = 12%float /\ minValue v' = 10%float /\
    vleb (minValue v') (minValue v) = true /\
    length (_bundleCollector s') = 2.
Proof.
  eexists _, _, _, _, _.
  split; [vm_compute; reflexivity|].
  split; [vm_compute; reflexivity|].
  split; [reflexivity|]. split; [reflexivity|].
  split; [|reflexivity].
  eapply (minValue_never_increases_and_store_grows float double double_order
            slope_oracle (zero_solver "" true) [2%float] (double_ready [2%float]) 1).
  - vm_compute. reflexivity.
  - vm_compute. reflexivity.
Defined.

(** C5 (the code departs from it): the hyperplane a pass appends has the
    gradient returned by the oracle as slope, and the oracle's value less
    what [dot] returns on the weights and the gradient as intercept, which is
    not the inner product. On the [double]s [w = (2)], with the oracle's value
    [10] and gradient [(3)], the hyperplane stored is [((3), 5)], where
    [L(w) - <w,a>] is [4]. *)
Theorem intercept_is_computed_with_dot :
  (forall (T : Type) (V : ValueType T)
          (oracle : list (@Weights T) -> @Weights T -> T -> @Weights T -> T * @Weights T)
          (solver : @QuadraticSolverBackend T -> @Solution T * T * string * bool)
          (v v' : LoopVars T) (s s' : @State T) (eps_t : T),
      iteration oracle solver v s = (Ok (eps_t, v'), s') ->
      exists L_w_tm1 a_t d',
        oracle (oracle_calls s) (w v) vzero (Weights_new (numberOfWeights (w v)))
          = (L_w_tm1, a_t) /\
        dot (w v) a_t = Ok d' /\
        _bundleCollector s' = _bundleCollector s ++ [(a_t, vsub L_w_tm1 d')]) /\
  _bundleCollector
    (iteration slope_oracle (zero_solver "" true) (loop_entry [2%float])
       (double_ready [2%float])).2
    = [([3%float], 5%float)] /\
  vsub 10%float (inner_product [2%float] [3%float]) = 4%float.
Proof.
  split; [|split; vm_compute; reflexivity].
  intros T V oracle solver v v' s s' eps_t Hi.
  apply iteration_inv in Hi
    as (b & L & a & d & d' & x & value & msg & optimal & _ & Ho & _ & Hd' & _ &
        _ & _ & _ & _ & _ & Hc' & _).
  exists L, a, d'. auto.
Qed.

(** C6: [setupQp] builds an objective over [numberOfWeights() + 1]
    variables, with the quadratic coefficient [0.5 * lambda] on [(i, i)] for
    every weight [i] and no other, the linear coefficient [1.0] on the last
    variable and no other, to be minimized, and installs it after
    initializing the backend. [optimize] does so once, before its loop:
    every call the backend receives afterwards, in the passes of a run that
    goes on as in a run that has returned or thrown, is a [setConstraints] or
    a [solve]. *)
Theorem setupQp_installs_the_objective_once :
  forall (T : Type) (V : ValueType T)
         (oracle : list (@Weights T) -> @Weights T -> T -> @Weights T -> T * @Weights T)
         (solver : @QuadraticSolverBackend T -> @Solution T * T * string * bool)
         (w0 : @Weights T) (s : @State T),
    (obj_size (setup_objective (lambda (_parameter s)) (numberOfWeights w0))
       = numberOfWeights w0 + 1 /\
     (forall i j,
         obj_quadratic (setup_objective (lambda (_parameter s)) (numberOfWeights w0)) !! (i, j)
         = if decide (i = j /\ i < numberOfWeights w0)
           then Some (vmul vhalf (lambda (_parameter s))) else None) /\
     (forall i,
         obj_linear (setup_objective (lambda (_parameter s)) (numberOfWeights w0)) !! i
         = if decide (i = numberOfWeights w0) then Some vone else None) /\
     obj_sense (setup_objective (lambda (_parameter s)) (numberOfWeights w0)) = Minimize) /\
    setupQp w0 s
      = (Ok tt,
         with_solver
           (Some (solver_calls s ++
                    [Initialize (numberOfParameters w0 + 1) Continuous;
                     SetObjective
                       (setup_objective (lambda (_parameter s)) (numberOfWeights w0))]))
           s) /\
    (forall k v' s',
        passes oracle solver k (loop_entry w0) (setupQp w0 s).2 = Some (v', s') ->
        exists cs,
          solver_calls s'
            = solver_calls s
              ++ setup_calls (lambda (_parameter s)) (numberOfWeights w0) ++ cs /\
          Forall (fun c => is_pass_call c = true) cs /\ count_Solve cs = k) /\
    (forall fuel out s',
        optimize oracle solver fuel w0 s = Some (out, s') ->
        exists cs,
          solver_calls s'
            = solver_calls s
              ++ setup_calls (lambda (_parameter s)) (numberOfWeights w0) ++ cs /\
          Forall (fun c => is_pass_call c = true) cs).
Proof.
  intros T V oracle solver w0 s.
  split; [apply setup_objective_content|].
  split; [apply setupQp_run|].
  split.
  - intros k v' s' Hp. rewrite setupQp_run in Hp.
    apply passes_appends in Hp as (_ & _ & _ & _ & cs & Hs & Hcs & Hn).
    exists cs. rewrite Hs. unfold setup_calls, numberOfWeights.
    unfold solver_calls at 1. simpl. rewrite <- app_assoc. auto.
  - intros fuel out s'. unfold optimize. rewrite setupQp_run.
    destruct (optimize_loop _ _ _ _ _) as [[out' sf]|] eqn:Hloop; [|discriminate].
    apply optimize_loop_calls in Hloop as (cs & Hs & Hcs).
    intros Hout. assert (sf = s') as <-.
    { destruct out' as [[]|]; now injection Hout. }
    exists cs. rewrite Hs. unfold setup_calls, numberOfWeights.
    unfold solver_calls at 1. simpl. rewrite <- app_assoc. auto.
Qed.

(** C7: when the solver reports its solution not optimal,
    [findMinLowerBound] returns all the same: it appends the warning to
    [std::cerr], copies the solution into the weights and returns the
    reported objective value. Weights, value and state are those of the run
    in which the same solution is reported optimal, the warning apart. *)
Theorem findMinLowerBound_adopts_non_optimal :
  forall (T : Type) (V : ValueType T)
         (solver : @QuadraticSolverBackend T -> @Solution T * T * string * bool)
         (w0 : @Weights T) (s : @State T) (b : @QuadraticSolverBackend T)
         (x : @Solution T) (value : T) (msg : string),
    _solver s = Some b ->
    solver (b ++ [SetConstraints (getConstraints (_bundleCollector s))])
      = (x, value, msg, false) ->
    exists s',
      findMinLowerBound solver w0 s
        = (Ok (solution_weights (numberOfParameters w0) x, value), s') /\
      cerr s' = cerr s +:+ not_optimal_warning msg /\
      forall solver',
        solver' (b ++ [SetConstraints (getConstraints (_bundleCollector s))])
          = (x, value, msg, true) ->
        exists s'',
          findMinLowerBound solver' w0 s
            = (Ok (solution_weights (numberOfParameters w0) x, value), s'') /\
          cerr s'' = cerr s /\
          s' = with_cerr (cerr s +:+ not_optimal_warning msg) s''.
Proof.
  intros T V solver w0 s b x value msg Hb Hx.
  eexists. split; [apply (findMinLowerBound_run solver w0 s b x value msg false Hb Hx)|].
  split; [reflexivity|].
  intros solver' Hx'.
  eexists. split; [apply (findMinLowerBound_run solver' w0 s b x value msg true Hb Hx')|].
  split; reflexivity.
Qed.

(** A backend on [double]s that reports its answer not optimal. *)
Lemma findMinLowerBound_adopts_non_optimal_witness :
  exists s',
    findMinLowerBound (zero_solver "infeasible" false) [1%float; 2%float]
      (double_ready [1%float; 2%float])
      = (Ok ([0%float; 0%float], 0%float), s') /\
    cerr s' = "[BundleOptimizer] QP could not be solved to optimality: infeasible" +:+ endl.
Proof.
  destruct (findMinLowerBound_adopts_non_optimal float double
              (zero_solver "infeasible" false) [1%float; 2%float]
              (double_ready [1%float; 2%float])
              (solver_calls (double_ready [1%float; 2%float]))
              (fun _ => 0%float) 0%float "infeasible" eq_refl eq_refl)
    as (s' & Hrun & Hcerr & _).
  exists s'. split; [exact Hrun|exact Hcerr].
Defined.

(** C8: [dot] rejects vectors of unequal arity, of lengths 3 and 4 say, with
    a dimension mismatch and computes nothing; on vectors of equal arity it
    returns a value, the failure cannot happen. *)
Theorem dot_rejects_unequal_arities :
  forall (T : Type) (V : ValueType T) (a b : @Weights T),
    (numberOfParameters a <> numberOfParameters b -> dot a b = Throw DimensionMismatch) /\
    (numberOfParameters a = 3 -> numberOfParameters b = 4 ->
     dot a b = Throw DimensionMismatch) /\
    (numberOfParameters a = numberOfParameters b -> exists d, dot a b = Ok d) /\
    (forall e, dot a b = Throw e ->
               e = DimensionMismatch /\ numberOfParameters a <> numberOfParameters b).
Proof.
  intros T V a b. split; [apply dot_unequal_arity|].
  split; [intros Ha Hb; apply dot_unequal_arity; lia|].
  split; [intros Hab; rewrite dot_equal_arity by assumption; eauto|].
  intros e He.
  destruct (decide (numberOfParameters a = numberOfParameters b)) as [Hab|Hab].
  - rewrite dot_equal_arity in He by assumption. discriminate.
  - rewrite dot_unequal_arity in He by assumption. now injection He as <-.
Qed.

(** C9: [findMinLowerBound] writes the first [numberOfParameters()]
    components of the weights, component [i] with component [i] of the
    solution, and leaves the length and every other position as they were;
    so does every pass of the loop of [optimize]. *)
Theorem findMinLowerBound_writes_the_parameters :
  forall (T : Type) (V : ValueType T)
         (oracle : list (@Weights T) -> @Weights T -> T -> @Weights T -> T * @Weights T)
         (solver : @QuadraticSolverBackend T -> @Solution T * T * string * bool)
         (w0 w' : @Weights T) (value : T) (s s' : @State T),
    findMinLowerBound solver w0 s = (Ok (w', value), s') ->
    (exists b,
        _solver s = Some b /\
        forall i, i < numberOfParameters w0 ->
          w' !! i =
          Some ((solver (b ++ [SetConstraints (getConstraints (_bundleCollector s))])).1.1.1 i)) /\
    length w' = length w0 /\
    (forall j, numberOfParameters w0 <= j -> w' !! j = w0 !! j) /\
    (forall v v' eps_t s1 s2,
        iteration oracle solver v s1 = (Ok (eps_t, v'), s2) ->
        length (w v') = length (w v)).
Proof.
  intros T V oracle solver w0 w' value s s' Hrun.
  assert (Hlen : length w' = length w0 /\
                 exists b, _solver s = Some b /\
                   w' = solution_weights (length w0)
                          (solver (b ++ [SetConstraints (getConstraints (_bundleCollector s))])).1.1.1).
  { destruct (_solver s) as [b|] eqn:Hb.
    - destruct (solver (b ++ [SetConstraints (getConstraints (_bundleCollector s))]))
        as [[[x val] msg] optimal] eqn:Hx.
      rewrite (findMinLowerBound_run solver w0 s b x val msg optimal Hb Hx) in Hrun.
      injection Hrun as <- _ _. rewrite solution_weights_length.
      split; [reflexivity|]. exists b. split; [reflexivity|]. now rewrite Hx.
    - rewrite (findMinLowerBound_null solver w0 s Hb) in Hrun. discriminate. }
  destruct Hlen as (Hlen & b & Hb & Hw').
  split; [|split; [exact Hlen|split]].
  - exists b. split; [exact Hb|]. intros i Hi.
    rewrite Hw'. now apply solution_weights_lookup.
  - intros j Hj. unfold numberOfParameters in Hj.
    rewrite !lookup_ge_None_2 by lia. reflexivity.
  - intros v v' eps_t s1 s2 Hi. now apply iteration_appends in Hi.
Qed.

(** Two weights overwritten with the zero solution. *)
Lemma findMinLowerBound_writes_the_parameters_witness :
  (exists b,
      _solver (double_ready [1%float; 2%float]) = Some b /\
      forall i, i < 2 -> [0%float; 0%float] !! i = Some 0%float) /\
  length [0%float; 0%float] = length [1%float; 2%float].
Proof.
  destruct (findMinLowerBound_writes_the_parameters float double
              slope_oracle (zero_solver "" true)
              [1%float; 2%float] [0%float; 0%float] 0%float
              (double_ready [1%float; 2%float])
              (findMinLowerBound (zero_solver "" true) [1%float; 2%float]
                 (double_ready [1%float; 2%float])).2
              eq_refl)
    as ((b & Hb & Hw) & Hlen & _).
  split; [|exact Hlen]. exists b. split; [exact Hb|exact Hw].
Defined.

(** C10: a run of [optimize] that returns has completed at least one pass
    of its loop, whatever the oracle, the weights and the parameter: the
    oracle has been called, first at the weights [optimize] was given, a
    hyperplane has been appended for every call, the backend has solved as
    many subproblems, and the weights returned are the solution the backend
    gave last. *)
Theorem optimize_passes_once_before_returning :
  forall (T : Type) (V : ValueType T)
         (oracle : list (@Weights T) -> @Weights T -> T -> @Weights T -> T * @Weights T)
         (solver : @QuadraticSolverBackend T -> @Solution T * T * string * bool)
         (fuel : nat) (w0 w' : @Weights T) (r : OptimizerResult) (s s' : @State T),
    optimize oracle solver fuel w0 s = Some (Ok (r, w'), s') ->
    exists k ps hs b,
      S k <= fuel /\
      oracle_calls s' = oracle_calls s ++ w0 :: ps /\ length ps = k /\
      _bundleCollector s' = _bundleCollector s ++ hs /\ length hs = S k /\
      count_Solve (solver_calls s') = count_Solve (solver_calls s) + S k /\
      solver_calls s' = b ++ [Solve] /\
      w' = solution_weights (numberOfParameters w0) (solver b).1.1.1.
Proof.
  intros T V oracle solver fuel w0 w' r s s'. unfold optimize. rewrite setupQp_run.
  destruct (optimize_loop _ _ _ _ _) as [[[[m n wf]|e] sf]|] eqn:Hloop; try discriminate.
  intros [= <- <- <-].
  apply optimize_loop_returns in Hloop as (k & v1 & s1 & eps_t & Hk & Hp & Hi & _).
  destruct (passes_oracle_calls _ _ _ _ _ _ _ Hp) as (ps & Ho & Hps).
  apply passes_appends in Hp as (_ & Hlen & (hs & Hc & Hhs) & _ & (cs & Hs & _ & Hn)).
  apply iteration_appends in Hi
    as (_ & _ & (h & Hc') & Ho' & (c & Hs') & (b & Hb & Hw)).
  simpl in Ho, Hc, Hlen, Hw. unfold solver_calls at 2 in Hs. simpl in Hs.
  exists k, ps, (hs ++ [h]), b.
  split; [lia|]. split; [now rewrite Ho', Ho|]. split; [assumption|].
  split; [now rewrite Hc', Hc, app_assoc|].
  split; [rewrite length_app; simpl; lia|].
  split; [|split; [assumption|unfold numberOfParameters; now rewrite <- Hlen]].
  rewrite Hs', Hs, !count_Solve_app, Hn. unfold count_Solve. simpl. lia.
Qed.

(** The run of the scenario, which returns after one pass. *)
Lemma optimize_passes_once_before_returning_witness :
  exists (k : nat) (ps : list (@Weights xreal)) (hs : list (@Hyperplane xreal))
         (b : @QuadraticSolverBackend xreal),
    S k <= 1 /\
    oracle_calls
      scenario_final
      = [] ++ [Fin 0] :: ps /\
    length ps = k /\ length hs = S k /\
    [Fin 0] = solution_weights 1 (scenario_solver b).1.1.1.
Proof.
  destruct (optimize_passes_once_before_returning xreal exact
              constant_oracle scenario_solver 1 [Fin 0] [Fin 0] ReachedMinGap
              (BundleOptimizer_new scenario_parameter)
              scenario_final
              eq_refl)
    as (k & ps & hs & b & Hk & Ho & Hps & _ & Hhs & _ & _ & Hw).
  exists k, ps, hs, b. auto.
Defined.

(** * Further properties *)

(** ** Passes that throw, and what every run keeps *)

Section FurtherFacts.
Context {T : Type} `{ValueType T}.
Variable oracle : list (@Weights T) -> @Weights T -> T -> @Weights T -> T * @Weights T.
Variable solver : @QuadraticSolverBackend T -> @Solution T * T * string * bool.

(** A pass throws in two ways: [dot] rejects the gradient of the oracle,
    before the store or the backend is touched; or the backend is not
    there. *)
Lemma iteration_throws_inv (v : LoopVars T) (s s' : State) (e : Exception) :
  iteration oracle solver v s = (Throw e, s') ->
  (e = DimensionMismatch /\
   numberOfParameters
     (oracle (oracle_calls s) (w v) vzero (Weights_new (numberOfWeights (w v)))).2
   <> numberOfParameters (w v) /\
   s' = with_oracle_calls (oracle_calls s ++ [w v])
          (with_cout (cout s +:+ iteration_banner ((t v + 1) mod 2 ^ 32)%N) s)) \/
  (e = NullSolver /\ _solver s = None).
Proof.
  unfold iteration, findMinLowerBound. unfold_M. simpl.
  destruct (oracle _ _ _ _) as [L a]. simpl.
  destruct (dot_self (w v)) as [d ->].
  destruct (decide (numberOfParameters (w v) = numberOfParameters a)) as [Heq|Hne].
  - rewrite (dot_equal_arity (w v) a Heq). simpl.
    destruct (_solver s) as [b|] eqn:Hb; simpl.
    + destruct (solver _) as [[[x value] msg] optimal]. destruct optimal; discriminate.
    + intros [= <- _]. now right.
  - rewrite (dot_unequal_arity (w v) a Hne). intros [= <- <-]. left.
    split; [reflexivity|]. split; [congruence|reflexivity].
Qed.

(** The argument of the last [setConstraints] and of the last
    [setObjective] among the calls of a backend. *)
Lemma installed_constraints_snoc (b : @QuadraticSolverBackend T) (l : LinearConstraints) :
  installed_constraints (b ++ [SetConstraints l; Solve]) = Some l.
Proof.
  unfold installed_constraints. rewrite omap_app. simpl. apply last_snoc.
Qed.

Lemma installed_objective_pass (b cs : @QuadraticSolverBackend T) :
  Forall (fun c => is_pass_call c = true) cs ->
  installed_objective (b ++ cs) = installed_objective b.
Proof.
  unfold installed_objective. intros Hcs. rewrite omap_app.
  assert (Hnil : omap (fun c : @SolverCall T =>
                         match c with SetObjective o => Some o | _ => None end) cs = []).
  { induction Hcs as [|c cs Hc _ IH]; [reflexivity|].
    destruct c; simpl in *; try discriminate; exact IH. }
  now rewrite Hnil, app_nil_r.
Qed.

(** The backend a loop is entered with is the one it is left with, in
    whatever way; it is never missing. *)
Lemma optimize_loop_backend (fuel : nat) (v : LoopVars T) (s s' : State)
    (b : QuadraticSolverBackend) (out : Result (LoopVars T)) :
  _solver s = Some b ->
  optimize_loop oracle solver fuel v s = Some (out, s') ->
  out <> Throw NullSolver /\
  exists cs, _solver s' = Some (b ++ cs) /\ Forall (fun c => is_pass_call c = true) cs.
Proof.
  revert v s b. induction fuel as [|fuel IH]; intros v s b Hb; [discriminate|].
  simpl. destruct (iteration oracle solver v s) as [[[eps_t v1]|e] s1] eqn:Hi.
  - apply iteration_inv in Hi
      as (b' & L & a & d & d' & x & value & msg & optimal & Hb' & _ & _ & _ & _ &
          _ & _ & _ & _ & _ & _ & Hs & _).
    rewrite Hb in Hb'. injection Hb' as <-.
    destruct (converged eps_t s1).
    + intros [= <- <-]. split; [discriminate|]. eexists. split; [exact Hs|].
      repeat constructor.
    + intros Hloop. apply (IH _ _ _ Hs) in Hloop as (Hout & cs & Hs' & Hcs).
      split; [exact Hout|]. eexists. rewrite Hs', <- app_assoc. split; [reflexivity|].
      apply Forall_app. split; [repeat constructor|exact Hcs].
  - intros [= <- <-]. apply iteration_throws_inv in Hi as [(-> & _ & ->)|(_ & Hnone)].
    + split; [discriminate|]. exists []. rewrite app_nil_r. auto.
    + congruence.
Qed.
End FurtherFacts.

Section FurtherRunFacts.
Context {T : Type} `{ValueType T}.
Variable oracle : list (@Weights T) -> @Weights T -> T -> @Weights T -> T * @Weights T.
Variable solver : @QuadraticSolverBackend T -> @Solution T * T * string * bool.

Lemma dot_Ok_arity (a b : @Weights T) (d : T) :
  dot a b = Ok d -> numberOfParameters a = numberOfParameters b.
Proof.
  intros Hd. destruct (decide (numberOfParameters a = numberOfParameters b)) as [|Hne];
    [assumption|]. rewrite (dot_unequal_arity a b Hne) in Hd. discriminate.
Qed.

(** What the loop, ended in whatever way, has kept: the parameter, the
    hyperplanes stored before, the arity of the weights, and that of the
    slopes it has stored. *)
Lemma optimize_loop_keeps (fuel : nat) (v : LoopVars T) (s s' : State)
    (out : Result (LoopVars T)) :
  is_Some (_solver s) ->
  optimize_loop oracle solver fuel v s = Some (out, s') ->
  _parameter s' = _parameter s /\
  (exists hs, _bundleCollector s' = _bundleCollector s ++ hs /\
              Forall (fun h => numberOfParameters h.1 = numberOfParameters (w v)) hs) /\
  (forall v', out = Ok v' -> length (w v') = length (w v)).
Proof.
  revert v s. induction fuel as [|fuel IH]; intros v s Hsome; [discriminate|].
  simpl. destruct (iteration oracle solver v s) as [[[eps_t v1]|e] s1] eqn:Hi.
  - apply iteration_inv in Hi
      as (b & L & a & d & d' & x & value & msg & optimal & _ & _ & _ & Hd' & _ &
          _ & _ & Hw & _ & Hp & Hc & Hs & _).
    apply dot_Ok_arity in Hd'.
    assert (Hlen : length (w v1) = length (w v))
      by (rewrite Hw; apply solution_weights_length).
    destruct (converged eps_t s1).
    + intros [= <- <-]. split; [exact Hp|]. split.
      * eexists. split; [exact Hc|]. constructor; [now symmetry|constructor].
      * now intros v' [= <-].
    + intros Hloop. apply IH in Hloop as (Hp' & (hs & Hc' & Hhs) & Hout);
        [|rewrite Hs; eauto].
      split; [congruence|]. split.
      * eexists. rewrite Hc', Hc, <- app_assoc. split; [reflexivity|].
        constructor; [now symmetry|].
        unfold numberOfParameters in *. now rewrite Hlen in Hhs.
      * intros v' Hv'. rewrite (Hout v' Hv'). exact Hlen.
  - intros [= <- <-].
    apply iteration_throws_inv in Hi as [(_ & _ & ->)|(_ & Hnone)].
    + split; [reflexivity|]. split; [|discriminate].
      exists []. rewrite app_nil_r. auto.
    + destruct Hsome as [b Hb]. congruence.
Qed.
End FurtherRunFacts.

(** ** The extras *)




(** X3: [optimize] never empties the store. However a run ends, the
    hyperplanes stored before it are still there, in their order, before
    those the run has added, so a later run on the same optimizer works on
    both; and every hyperplane a run adds has a slope of the arity of the
    weights [optimize] was given. *)
Theorem optimize_adds_slopes_of_the_arity_of_the_weights :
  forall (T : Type) (V : ValueType T)
         (oracle : list (@Weights T) -> @Weights T -> T -> @Weights T -> T * @Weights T)
         (solver : @QuadraticSolverBackend T -> @Solution T * T * string * bool)
         (fuel : nat) (w0 : @Weights T) (s s' : @State T)
         (out : Result (OptimizerResult * @Weights T)),
    optimize oracle solver fuel w0 s = Some (out, s') ->
    exists hs,
      _bundleCollector s' = _bundleCollector s ++ hs /\
      Forall (fun h => numberOfParameters h.1 = numberOfParameters w0) hs.
Proof.
  intros T V oracle solver fuel w0 s s' out. unfold optimize. rewrite setupQp_run.
  destruct (optimize_loop _ _ _ _ _) as [[out' sf]|] eqn:Hloop; [|discriminate].
  apply optimize_loop_keeps in Hloop as (_ & Hstore & _); [|simpl; eauto].
  intros Hrun. assert (sf = s') as <- by (destruct out' as [[]|]; now injection Hrun).
  exact Hstore.
Qed.

(** The run of the scenario adds one hyperplane, of arity one. *)
Lemma optimize_adds_slopes_of_the_arity_of_the_weights_witness :
  exists hs : list (@Hyperplane xreal),
    _bundleCollector scenario_final = [] ++ hs /\
    Forall (fun h => numberOfParameters h.1 = 1) hs.
Proof.
  exact (optimize_adds_slopes_of_the_arity_of_the_weights xreal exact
           constant_oracle scenario_solver 1 [Fin 0]
           (BundleOptimizer_new scenario_parameter) scenario_final
           (Ok (ReachedMinGap, [Fin 0])) eq_refl).
Defined.

(** X4: [optimize] does not write to its parameter, however the run ends,
    and the weights it returns have the arity of those it was given. *)
Theorem optimize_keeps_the_parameter_and_the_arity :
  forall (T : Type) (V : ValueType T)
         (oracle : list (@Weights T) -> @Weights T -> T -> @Weights T -> T * @Weights T)
         (solver : @QuadraticSolverBackend T -> @Solution T * T * string * bool)
         (fuel : nat) (w0 : @Weights T) (s s' : @State T)
         (out : Result (OptimizerResult * @Weights T)),
    optimize oracle solver fuel w0 s = Some (out, s') ->
    _parameter s' = _parameter s /\
    forall r w', out = Ok (r, w') -> numberOfParameters w' = numberOfParameters w0.
Proof.
  intros T V oracle solver fuel w0 s s' out. unfold optimize. rewrite setupQp_run.
  destruct (optimize_loop _ _ _ _ _) as [[out' sf]|] eqn:Hloop; [|discriminate].
  apply optimize_loop_keeps in Hloop as (Hp & _ & Hlen); [|simpl; eauto].
  intros Hrun. assert (sf = s') as <- by (destruct out' as [[]|]; now injection Hrun).
  split; [exact Hp|].
  intros r w' ->. destruct out' as [[m n wf]|e]; [|discriminate].
  injection Hrun as _ <-. exact (Hlen _ eq_refl).
Qed.

(** The run of the scenario. *)
Lemma optimize_keeps_the_parameter_and_the_arity_witness :
  _parameter scenario_final = scenario_parameter /\
  forall r w', Ok (ReachedMinGap, [Fin 0]) = Ok (r, w') -> numberOfParameters w' = 1.
Proof.
  exact (optimize_keeps_the_parameter_and_the_arity xreal exact
           constant_oracle scenario_solver 1 [Fin 0]
           (BundleOptimizer_new scenario_parameter) scenario_final
           (Ok (ReachedMinGap, [Fin 0])) eq_refl).
Defined.

(** X5: a pass that is completed hands the backend the constraints of the
    whole store, the hyperplane it has just added included, and asks it to
    solve, in this order and once each. So when [optimize] returns, the
    backend works on the objective [setupQp] installed and on the
    constraints of every hyperplane in the store. *)
Theorem the_backend_works_on_the_whole_store :
  forall (T : Type) (V : ValueType T)
         (oracle : list (@Weights T) -> @Weights T -> T -> @Weights T -> T * @Weights T)
         (solver : @QuadraticSolverBackend T -> @Solution T * T * string * bool)
         (fuel : nat) (w0 w' : @Weights T) (r : OptimizerResult)
         (v v' : LoopVars T) (s0 s s' : @State T) (eps_t : T),
    (iteration oracle solver v s = (Ok (eps_t, v'), s') ->
     solver_calls s'
     = solver_calls s ++ [SetConstraints (getConstraints (_bundleCollector s')); Solve] /\
     length (_bundleCollector s') = S (length (_bundleCollector s))) /\
    (optimize oracle solver fuel w0 s0 = Some (Ok (r, w'), s') ->
     installed_objective (solver_calls s')
     = Some (setup_objective (lambda (_parameter s0)) (numberOfWeights w0)) /\
     installed_constraints (solver_calls s')
     = Some (getConstraints (_bundleCollector s'))).
Proof.
  intros T V oracle solver fuel w0 w' r v v' s0 s s' eps_t. split.
  - intros Hi. apply iteration_inv in Hi
      as (b & L & a & d & d' & x & value & msg & optimal & Hb & _ & _ & _ & _ &
          _ & _ & _ & _ & _ & Hc & Hs & _).
    rewrite (solver_calls_Some s b Hb), (solver_calls_Some s' _ Hs), Hc.
    split; [reflexivity|]. rewrite length_app. simpl. lia.
  - unfold optimize. rewrite setupQp_run.
    destruct (optimize_loop _ _ _ _ _) as [[[[m n wf]|e] sf]|] eqn:Hloop; try discriminate.
    intros [= <- <- <-].
    pose proof Hloop as Hback.
    eapply optimize_loop_backend in Hback as (_ & cs & Hs & Hcs); [|reflexivity].
    apply optimize_loop_returns in Hloop as (k & v1 & s1 & eps & _ & _ & Hi & _).
    apply iteration_inv in Hi
      as (b & L & a & d & d' & x & value & msg & optimal & _ & _ & _ & _ & _ &
          _ & _ & _ & _ & _ & Hc & Hs' & _).
    split.
    + rewrite (solver_calls_Some sf _ Hs), installed_objective_pass by exact Hcs.
      unfold installed_objective, numberOfWeights. rewrite omap_app. simpl.
      apply last_snoc.
    + rewrite (solver_calls_Some sf _ Hs'), Hc. apply installed_constraints_snoc.
Qed.

(** The run of the scenario: the backend is left with one constraint. *)
Lemma the_backend_works_on_the_whole_store_witness :
  installed_objective (solver_calls scenario_final) = Some scenario_objective /\
  installed_constraints (solver_calls scenario_final) = Some [([Fin 0], Fin 5)].
Proof.
  exact (proj2 (the_backend_works_on_the_whole_store xreal exact
                  constant_oracle scenario_solver 1 [Fin 0] [Fin 0] ReachedMinGap
                  (loop_entry [Fin 0]) (loop_entry [Fin 0])
                  (BundleOptimizer_new scenario_parameter) scenario_entry scenario_final
                  (Fin 0))
               eq_refl).
Defined.

(** X6: the point at which a pass calls the oracle is the solution the
    backend gave in the pass before, restricted to the weights; the oracle
    is told the points of all the earlier calls, and the gradient it returns
    there is the slope of the hyperplane the pass stores. *)
Theorem the_oracle_is_called_at_the_last_solution :
  forall (T : Type) (V : ValueType T)
         (oracle : list (@Weights T) -> @Weights T -> T -> @Weights T -> T * @Weights T)
         (solver : @QuadraticSolverBackend T -> @Solution T * T * string * bool)
         (v v1 v2 : LoopVars T) (s s1 s2 : @State T) (eps1 eps2 : T),
    iteration oracle solver v s = (Ok (eps1, v1), s1) ->
    iteration oracle solver v1 s1 = (Ok (eps2, v2), s2) ->
    exists b h1 b_t,
      solver_calls s1 = b ++ [Solve] /\
      w v1 = solution_weights (numberOfParameters (w v)) (solver b).1.1.1 /\
      oracle_calls s2 = oracle_calls s ++ [w v; w v1] /\
      _bundleCollector s2
      = _bundleCollector s
        ++ [h1;
            ((oracle (oracle_calls s ++ [w v]) (w v1) vzero
                (Weights_new (numberOfWeights (w v)))).2, b_t)].
Proof.
  intros T V oracle solver v v1 v2 s s1 s2 eps1 eps2 Hi1 Hi2.
  pose proof (iteration_appends oracle solver _ _ _ _ _ Hi1)
    as (_ & Hlen & (h1 & Hc1) & Ho1 & _ & (b & Hb & Hw)).
  apply iteration_inv in Hi2
    as (b2 & L & a & d & d' & x & value & msg & optimal & _ & Ho & _ & _ & _ &
        _ & _ & _ & _ & _ & Hc2 & _ & Ho2 & _).
  exists b, h1, (vsub L d'). split; [exact Hb|]. split; [exact Hw|].
  split; [now rewrite Ho2, Ho1, <- app_assoc|].
  rewrite Hc2, Hc1, <- app_assoc. simpl. do 3 f_equal.
  rewrite Ho1, Hlen in Ho. unfold numberOfWeights. now rewrite Ho.
Qed.

(** Two passes on [double]s: the second call of the oracle is at the zero
    solution. *)
Lemma the_oracle_is_called_at_the_last_solution_witness :
  exists (v1 v2 : LoopVars float) (s1 s2 : @State float) (eps1 eps2 : float),
    iteration slope_oracle (zero_solver "" true) (loop_entry [2%float])
      (double_ready [2%float]) = (Ok (eps1, v1), s1) /\
    iteration slope_oracle (zero_solver "" true) v1 s1 = (Ok (eps2, v2), s2) /\
    oracle_calls s2 = [[2%float]; [0%float]].
Proof.
  eexists _, _, _, _, _, _.
  split; [vm_compute; reflexivity|].
  split; [vm_compute; reflexivity|].
  destruct (the_oracle_is_called_at_the_last_solution float double
              slope_oracle (zero_solver "" true) (loop_entry [2%float])
              _ _ (double_ready [2%float]) _ _ _ _
              ltac:(vm_compute; reflexivity) ltac:(vm_compute; reflexivity))
    as (b & h1 & b_t & _ & _ & Ho & _).
  exact Ho.
Defined.

(** ** The numbers of the passes *)

Section Banners.
Context {T : Type} `{ValueType T}.
Variable oracle : list (@Weights T) -> @Weights T -> T -> @Weights T -> T * @Weights T.
Variable solver : @QuadraticSolverBackend T -> @Solution T * T * string * bool.

Lemma banners_S (t0 : N) (k : nat) (out : string) :
  banners t0 (S k) out
  = banners t0 k out +:+ iteration_banner ((t0 + N.of_nat (S k)) mod 2 ^ 32)%N.
Proof. unfold banners. rewrite seq_S, fold_left_app. reflexivity. Qed.

Lemma passes_banners (k : nat) (v v' : LoopVars T) (s s' : State) :
  passes oracle solver k v s = Some (v', s') ->
  (t v < 2 ^ 32)%N ->
  t v' = ((t v + N.of_nat k) mod 2 ^ 32)%N /\ cout s' = banners (t v) k (cout s).
Proof.
  revert v' s'. induction k as [|k IH]; intros v' s'.
  - intros [= <- <-] Ht. split; [|reflexivity].
    rewrite N.add_0_r, N.mod_small; auto.
  - rewrite passes_snoc. intros (eps_t & v1 & s1 & Hp & Hi & _) Ht.
    destruct (IH _ _ Hp Ht) as (Ht1 & Hc1).
    apply iteration_inv in Hi
      as (b & L & a & d & d' & x & value & msg & optimal & _ & _ & _ & _ & _ &
          _ & Ht' & _ & _ & _ & _ & _ & _ & Hc & _).
    assert (Hnum : ((t v1 + 1) mod 2 ^ 32 = (t v + N.of_nat (S k)) mod 2 ^ 32)%N).
    { rewrite Ht1, N.Div0.add_mod_idemp_l. f_equal. lia. }
    split; [congruence|]. now rewrite banners_S, Hc, Hc1, Hnum.
Qed.
End Banners.

(** X7: every pass writes one banner to [std::cout], with its number: the
    passes are counted from one, modulo [2^32], the counter being an
    [unsigned int]. When [optimize] returns after [k + 1] passes, it has
    appended the banners of [1] to [k + 1] to what [std::cout] held, and has
    called the oracle [k + 1] times. *)
Theorem every_pass_writes_its_number :
  forall (T : Type) (V : ValueType T)
         (oracle : list (@Weights T) -> @Weights T -> T -> @Weights T -> T * @Weights T)
         (solver : @QuadraticSolverBackend T -> @Solution T * T * string * bool)
         (fuel : nat) (w0 w' : @Weights T) (r : OptimizerResult) (s s' : @State T),
    optimize oracle solver fuel w0 s = Some (Ok (r, w'), s') ->
    exists k,
      S k <= fuel /\
      length (oracle_calls s') = length (oracle_calls s) + S k /\
      cout s' = banners 0 (S k) (cout s).
Proof.
  intros T V oracle solver fuel w0 w' r s s'. unfold optimize. rewrite setupQp_run.
  destruct (optimize_loop _ _ _ _ _) as [[[[m n wf]|e] sf]|] eqn:Hloop; try discriminate.
  intros [= <- <- <-].
  apply optimize_loop_returns in Hloop as (k & v1 & s1 & eps_t & Hk & Hp & Hi & _).
  destruct (passes_banners oracle solver _ _ _ _ _ Hp) as (Ht & Hc); [reflexivity|].
  apply passes_appends in Hp as (_ & _ & _ & (ps & Ho & Hps & _) & _).
  apply iteration_inv in Hi
    as (b & L & a & d & d' & x & value & msg & optimal & _ & _ & _ & _ & _ &
        _ & _ & _ & _ & _ & _ & _ & Ho' & Hc' & _).
  simpl in Ht, Hc, Ho. exists k. split; [lia|]. split.
  - rewrite Ho', Ho, !length_app. simpl. lia.
  - rewrite banners_S, Hc', Hc, Ht, N.Div0.add_mod_idemp_l.
    do 3 f_equal. lia.
Qed.

(** The run of the scenario writes the banner of pass one. *)
Lemma every_pass_writes_its_number_witness :
  exists k,
    S k <= 1 /\
    length (oracle_calls scenario_final) = 0 + S k /\
    cout scenario_final = banners 0 (S k) "".
Proof.
  exact (every_pass_writes_its_number xreal exact
           constant_oracle scenario_solver 1 [Fin 0] [Fin 0] ReachedMinGap
           (BundleOptimizer_new scenario_parameter) scenario_final eq_refl).
Defined.

(** ** The warnings of a run *)

Section Warnings.
Context {T : Type} `{ValueType T}.
Variable oracle : list (@Weights T) -> @Weights T -> T -> @Weights T -> T * @Weights T.
Variable solver : @QuadraticSolverBackend T -> @Solution T * T * string * bool.

Lemma solve_answers_app (b cs1 cs2 : @QuadraticSolverBackend T) :
  solve_answers solver b (cs1 ++ cs2)
  = solve_answers solver b cs1 ++ solve_answers solver (b ++ cs1) cs2.
Proof.
  revert b. induction cs1 as [|c cs1 IH]; intros b; simpl.
  - now rewrite app_nil_r.
  - rewrite IH, <- !app_assoc. reflexivity.
Qed.

Lemma warnings_app (l1 l2 : list (string * bool)) (out : string) :
  warnings (l1 ++ l2) out = warnings l2 (warnings l1 out).
Proof. apply fold_left_app. Qed.

Lemma warnings_optimal (l : list (string * bool)) (out : string) :
  Forall (fun a => a.2 = true) l -> warnings l out = out.
Proof.
  induction 1 as [|[msg optimal] l Ha _ IH]; [reflexivity|].
  simpl in Ha. subst optimal. exact IH.
Qed.

Lemma solve_answers_optimal (b cs : @QuadraticSolverBackend T) :
  (forall b', (solver b').2 = true) ->
  Forall (fun a => a.2 = true) (solve_answers solver b cs).
Proof.
  intros Hopt. revert b. induction cs as [|c cs IH]; intros b; simpl; [constructor|].
  apply Forall_app. split; [|apply IH].
  destruct (is_Solve c); constructor; [apply Hopt|constructor].
Qed.

(** The loop, ended in whatever way, has written one warning for every
    answer of the backend that was not optimal. *)
Lemma optimize_loop_warnings (fuel : nat) (v : LoopVars T) (s s' : State)
    (b : QuadraticSolverBackend) (out : Result (LoopVars T)) :
  _solver s = Some b ->
  optimize_loop oracle solver fuel v s = Some (out, s') ->
  exists cs, _solver s' = Some (b ++ cs) /\
             cerr s' = warnings (solve_answers solver b cs) (cerr s).
Proof.
  revert v s b. induction fuel as [|fuel IH]; intros v s b Hb; [discriminate|].
  simpl. destruct (iteration oracle solver v s) as [[[eps_t v1]|e] s1] eqn:Hi.
  - apply iteration_inv in Hi
      as (b' & L & a & d & d' & x & value & msg & optimal & Hb' & _ & _ & _ & Hx &
          _ & _ & _ & _ & _ & _ & Hs & _ & _ & He).
    rewrite Hb in Hb'. injection Hb' as <-.
    assert (Hpass : cerr s1
                    = warnings
                        (solve_answers solver b
                           [SetConstraints
                              (_bundleCollector s ++ [(a, vsub L d')]); Solve])
                        (cerr s)).
    { simpl. rewrite Hx. simpl. exact He. }
    destruct (converged eps_t s1).
    + intros [= <- <-]. eauto.
    + intros Hloop. apply (IH _ _ _ Hs) in Hloop as (cs & Hs' & He').
      eexists. rewrite Hs', <- app_assoc. split; [reflexivity|].
      now rewrite solve_answers_app, warnings_app, <- Hpass.
  - intros [= <- <-]. apply iteration_throws_inv in Hi as [(_ & _ & ->)|(_ & Hnone)].
    + exists []. rewrite app_nil_r. auto.
    + congruence.
Qed.
End Warnings.

(** X8: however a run of [optimize] ends, it has appended to [std::cerr]
    one warning for each answer of the backend that was reported not
    optimal, with the message of that answer, in the order of the answers,
    and nothing else; so a run whose backend reports every answer optimal
    leaves [std::cerr] as it was. *)
Theorem one_warning_for_every_answer_not_optimal :
  forall (T : Type) (V : ValueType T)
         (oracle : list (@Weights T) -> @Weights T -> T -> @Weights T -> T * @Weights T)
         (solver : @QuadraticSolverBackend T -> @Solution T * T * string * bool)
         (fuel : nat) (w0 : @Weights T) (s s' : @State T)
         (out : Result (OptimizerResult * @Weights T)),
    optimize oracle solver fuel w0 s = Some (out, s') ->
    (exists cs,
        solver_calls s'
        = (solver_calls s ++ setup_calls (lambda (_parameter s)) (numberOfWeights w0))
          ++ cs /\
        cerr s'
        = warnings
            (solve_answers solver
               (solver_calls s ++ setup_calls (lambda (_parameter s)) (numberOfWeights w0))
               cs)
            (cerr s)) /\
    ((forall b, (solver b).2 = true) -> cerr s' = cerr s).
Proof.
  intros T V oracle solver fuel w0 s s' out. unfold optimize. rewrite setupQp_run.
  destruct (optimize_loop _ _ _ _ _) as [[out' sf]|] eqn:Hloop; [|discriminate].
  eapply optimize_loop_warnings in Hloop as (cs & Hs & He); [|reflexivity].
  intros Hrun. assert (sf = s') as <- by (destruct out' as [[]|]; now injection Hrun).
  simpl in He. split.
  - exists cs. rewrite (solver_calls_Some sf _ Hs). split; [reflexivity|exact He].
  - intros Hopt. rewrite He. apply warnings_optimal, solve_answers_optimal, Hopt.
Qed.

(** The scenario with a backend that reports its answer not optimal: one
    warning. *)
Lemma one_warning_for_every_answer_not_optimal_witness :
  exists s',
    optimize constant_oracle unsure_solver 1 [Fin 0] (BundleOptimizer_new scenario_parameter)
    = Some (Ok (ReachedMinGap, [Fin 0]), s') /\
    cerr s' = not_optimal_warning "suboptimal".
Proof.
  eexists. split; [vm_compute; reflexivity|].
  destruct (one_warning_for_every_answer_not_optimal xreal exact
              constant_oracle unsure_solver 1 [Fin 0]
              (BundleOptimizer_new scenario_parameter) _ _
              ltac:(vm_compute; reflexivity))
    as ((cs & Hs & He) & _).
  vm_compute. reflexivity.
Defined.

(** ** Gaps that are not numbers, and gaps below zero *)

Lemma is_nan_Prim2SF (x : float) :
  PrimFloat.is_nan x = true -> Prim2SF x = S754_nan.
Proof.
  unfold PrimFloat.is_nan. rewrite FloatAxioms.eqb_spec. unfold SFeqb.
  destruct (Prim2SF x) as [[]|[]| |[] m e]; simpl; try discriminate; try reflexivity;
    rewrite Z.compare_refl, Pos.compare_cont_refl; discriminate.
Qed.

Lemma sub_nan (x y : float) :
  Prim2SF y = S754_nan -> Prim2SF (x - y) = S754_nan.
Proof.
  intros Hy. rewrite FloatAxioms.sub_spec, Hy. unfold SF64sub.
  destruct (Prim2SF x) as [[]|[]| |[] m e]; reflexivity.
Qed.

Lemma leb_nan (x y : float) :
  Prim2SF x = S754_nan -> (x <=? y)%float = false.
Proof. intros Hx. rewrite FloatAxioms.leb_spec, Hx. reflexivity. Qed.

(** X9: on [double]s, a gap that is a NaN never ends the loop, the test
    [eps_t <= min_gap] being false of it. A backend that reports a NaN as
    the value of every answer makes every gap one: [optimize] does not
    return then, whatever the oracle, the weights, the parameter and the
    number of passes. *)
Theorem a_NaN_value_keeps_optimize_from_returning :
  forall (oracle : list (@Weights float) -> @Weights float -> float -> @Weights float
                   -> float * @Weights float)
         (solver : @QuadraticSolverBackend float -> @Solution float * float * string * bool)
         (fuel : nat) (w0 w' : @Weights float) (r : OptimizerResult)
         (s s' : @State float),
    (forall b, PrimFloat.is_nan (solver b).1.1.2 = true) ->
    optimize oracle solver fuel w0 s <> Some (Ok (r, w'), s').
Proof.
  intros oracle solver fuel w0 w' r s s' Hnan. unfold optimize. rewrite setupQp_run.
  destruct (optimize_loop _ _ _ _ _) as [[[[m n wf]|e] sf]|] eqn:Hloop; try discriminate.
  apply optimize_loop_returns in Hloop as (k & v1 & s1 & eps_t & _ & _ & Hi & Hc).
  apply iteration_inv in Hi
    as (b & L & a & d & d' & x & value & msg & optimal & _ & _ & _ & _ & Hx &
        _ & _ & _ & -> & _).
  pose proof (Hnan (b ++ [SetConstraints (_bundleCollector s1 ++ [(a, vsub L d')])]))
    as Hvalue.
  rewrite Hx in Hvalue. simpl in Hvalue.
  unfold converged in Hc. simpl in Hc.
  rewrite leb_nan in Hc by (apply sub_nan, is_nan_Prim2SF, Hvalue).
  discriminate.
Qed.

(** Five passes with the backend that reports NaNs. *)
Lemma a_NaN_value_keeps_optimize_from_returning_witness :
  optimize slope_oracle nan_solver 5 [2%float] (BundleOptimizer_new double_parameter)
  <> Some (Ok (ReachedMinGap, [0%float]), BundleOptimizer_new double_parameter).
Proof.
  apply (a_NaN_value_keeps_optimize_from_returning slope_oracle nan_solver 5
           [2%float] [0%float] ReachedMinGap (BundleOptimizer_new double_parameter)
           (BundleOptimizer_new double_parameter)).
  intros b. vm_compute. reflexivity.
Defined.

(** X10: on exact values, a pass in which the backend reports a value above
    the best value observed computes a gap below zero, and the loop takes it
    for convergence whenever [min_gap] is not negative: it ends there, with
    the weights of that pass. *)
Theorem a_gap_below_zero_ends_the_loop :
  forall (oracle : list (@Weights xreal) -> @Weights xreal -> xreal -> @Weights xreal
                   -> xreal * @Weights xreal)
         (solver : @QuadraticSolverBackend xreal -> @Solution xreal * xreal * string * bool)
         (v v' : LoopVars xreal) (s s' : @State xreal) (eps_t : xreal)
         (b : @QuadraticSolverBackend xreal) (m q g : Q),
    iteration oracle solver v s = (Ok (eps_t, v'), s') ->
    _solver s = Some b ->
    minValue v' = Fin m ->
    (solver (b ++ [SetConstraints (getConstraints (_bundleCollector s'))])).1.1.2 = Fin q ->
    min_gap (_parameter s) = Fin g ->
    (m < q)%Q -> (0 <= g)%Q ->
    exists e,
      eps_t = Fin e /\ (e < 0)%Q /\
      forall fuel, optimize_loop oracle solver (S fuel) v s = Some (Ok v', s').
Proof.
  intros oracle solver v v' s s' eps_t b m q g Hi Hb Hm Hq Hg Hmq Hg0.
  pose proof Hi as Hinv. apply iteration_inv in Hinv
    as (b' & L & a & d & d' & x & value & msg & optimal & Hb' & _ & _ & _ & Hx &
        _ & _ & _ & Heps & Hp & Hc & _).
  rewrite Hb in Hb'. injection Hb' as <-.
  unfold getConstraints in Hq. rewrite Hc, Hx in Hq. simpl in Hq. subst value.
  rewrite Hm in Heps. simpl in Heps.
  exists (Qred (m + Qred (- q))).
  assert (He : (Qred (m + Qred (- q)) < 0)%Q) by (rewrite !Qred_correct; lra).
  split; [exact Heps|]. split; [exact He|].
  intros fuel. simpl. rewrite Hi. unfold converged. rewrite Hp, Hg, Heps. simpl.
  assert (Hle : Qle_bool (Qred (m + Qred (- q))) g = true)
    by (apply Qle_bool_iff; lra).
  now rewrite Hle.
Qed.

(** The scenario with the backend that reports the value [100]: the gap is
    [-95], and [optimize] returns after the pass. *)
Lemma a_gap_below_zero_ends_the_loop_witness :
  exists (v' : LoopVars xreal) (s' : @State xreal),
    iteration constant_oracle overshooting_solver (loop_entry [Fin 0]) scenario_entry
    = (Ok (Fin (-95), v'), s') /\
    optimize constant_oracle overshooting_solver 1 [Fin 0]
      (BundleOptimizer_new scenario_parameter)
    = Some (Ok (ReachedMinGap, w v'), s').
Proof.
  eexists _, _. split; [vm_compute; reflexivity|].
  destruct (a_gap_below_zero_ends_the_loop constant_oracle overshooting_solver
              (loop_entry [Fin 0]) _ scenario_entry _ _
              [Initialize 2 Continuous; SetObjective scenario_objective] 5 100 (1 # 100000)
              ltac:(vm_compute; reflexivity) eq_refl eq_refl eq_refl eq_refl
              ltac:(reflexivity) ltac:(discriminate))
    as (e & _ & _ & Hloop).
  unfold optimize. rewrite scenario_setup, (Hloop 0). reflexivity.
Defined.

Lemma leb_refl_not_nan (x : float) :
  (x <=? x)%float = true -> PrimFloat.is_nan x = false.
Proof.
  unfold PrimFloat.is_nan. rewrite FloatAxioms.leb_spec, FloatAxioms.eqb_spec.
  unfold SFleb, SFeqb. destruct (SFcompare_refl (Prim2SF x)) as [-> | ->];
    [reflexivity|discriminate].
Qed.

(** X11: on [double]s, [minValue] is never a NaN, whatever the oracle
    returns: [std::min(minValue, x)] keeps [minValue] when [x] is a NaN,
    [x < minValue] being false then. This holds before and after every pass
    of a run. *)
Theorem minValue_is_never_a_NaN :
  forall (oracle : list (@Weights float) -> @Weights float -> float -> @Weights float
                   -> float * @Weights float)
         (solver : @QuadraticSolverBackend float -> @Solution float * float * string * bool)
         (k : nat) (w0 : @Weights float) (s0 s s' : @State float)
         (v v' : LoopVars float) (eps_t : float),
    passes oracle solver k (loop_entry w0) s0 = Some (v, s) ->
    PrimFloat.is_nan (minValue v) = false /\
    (iteration oracle solver v s = (Ok (eps_t, v'), s') ->
     PrimFloat.is_nan (minValue v') = false /\
     forall L_w_tm1 a_t,
       oracle (oracle_calls s) (w v) vzero (Weights_new (numberOfWeights (w v)))
       = (L_w_tm1, a_t) ->
       PrimFloat.is_nan L_w_tm1 = true -> minValue v' = minValue v).
Proof.
  intros oracle solver k w0 s0 s s' v v' eps_t Hp.
  assert (Hrefl : vleb (minValue v) (minValue v) = true).
  { apply (@passes_minValue_refl float double oracle solver double_order
             k (loop_entry w0) v s0 s); [|exact Hp]. vm_compute. reflexivity. }
  split; [now apply leb_refl_not_nan|].
  intros Hi. apply iteration_inv in Hi
    as (b & L & a & d & d' & x & value & msg & optimal & _ & Ho & _ & _ & _ &
        Hm & _).
  split.
  - apply leb_refl_not_nan. rewrite Hm.
    apply (@std_min_refl float double double_order). exact Hrefl.
  - intros L' a' Ho' Hnan. unfold numberOfWeights in Ho'.
    rewrite Ho in Ho'. injection Ho' as <- <-.
    rewrite Hm. unfold std_min. simpl.
    rewrite FloatAxioms.ltb_spec, FloatAxioms.add_spec.
    rewrite (is_nan_Prim2SF L Hnan). reflexivity.
Qed.

(** A pass with the oracle whose value is a NaN: [minValue] stays at
    infinity. *)
Lemma minValue_is_never_a_NaN_witness :
  exists (v' : LoopVars float) (s' : @State float) (eps_t : float),
    iteration nan_oracle (zero_solver "" true) (loop_entry [2%float])
      (double_ready [2%float]) = (Ok (eps_t, v'), s') /\
    PrimFloat.is_nan (minValue v') = false /\
    minValue v' = infinity.
Proof.
  eexists _, _, _. split; [vm_compute; reflexivity|].
  pose proof (fun s' v' eps_t =>
                proj2 (minValue_is_never_a_NaN nan_oracle (zero_solver "" true) 0
                         [2%float] (double_ready [2%float]) (double_ready [2%float]) s'
                         (loop_entry [2%float]) v' eps_t eq_refl)) as Hpass.
  edestruct Hpass as (Hnan & Hkeep); [vm_compute; reflexivity|].
  split; [exact Hnan|].
  exact (Hkeep nan [3%float] eq_refl eq_refl).
Defined.
